(** * Custom-resource provider framework: the CloudFormation response path

    A shallow embedding of
    [custom-resources/lib/provider-framework/runtime/cfn-response.ts]
    ([submitResponse], [safeHandler], [redactDataFromPayload]) and the
    properties of it that the specification states.

    Layout:
    - [jsval], [json_text]: JavaScript values as finite trees and the text
      [JSON.stringify] prints for them;
    - [Event], [Response]: the event context and the wire payload;
    - [Url]: the components [url.parse] extracts from a callback URL;
    - [World], [M]: the observable world (the shared event object, the
      module variable [includeStackTraces], console and network effects) and
      the state-and-exception monad the asynchronous code runs in;
    - [submitResponse], [safeHandler]: the two entry points;
    - [Store]: a heap of mutable objects, on which [redactDataFromPayload]
      copies and then overwrites. *)

From Stdlib Require Import ZArith Ascii String List Lia Bool.
From stdpp Require Import base option list strings pretty.

Set Warnings "-register-all".

Local Open Scope string_scope.
Local Open Scope Z_scope.

(** ** JavaScript values *)

(** Values as finite trees. Numbers are the integers; functions, symbols and
    dates do not occur. [JUndef] is [undefined], which a property of type
    [any] may hold. Property lists keep insertion order. *)
Inductive jsval : Type :=
| JUndef
| JNull
| JBool (b : bool)
| JNum (n : Z)
| JStr (s : string)
| JArr (elems : list jsval)
| JObj (props : list (string * jsval)).

Abbreviation dict := (list (string * jsval)).

Definition is_undef (v : jsval) : bool :=
  match v with JUndef => true | _ => false end.

(** [x || d] on an optional string: [undefined] and [''] are falsy. *)
Definition or_default (x : option string) (d : string) : string :=
  match x with
  | Some s => if String.eqb s "" then d else s
  | None => d
  end.

(** [!x] on an optional string. *)
Definition falsy_string (x : option string) : bool :=
  match x with
  | Some s => String.eqb s ""
  | None => true
  end.

(** ** JSON text *)

Definition dquote : string := String (ascii_of_nat 34) EmptyString.

Definition hex_digit (n : nat) : ascii :=
  ascii_of_nat (if Nat.ltb n 10 then 48 + n else 87 + n)%nat.

(** One character inside a JSON string literal. *)
Definition json_escape_char (c : ascii) : string :=
  let n := nat_of_ascii c in
  if Nat.eqb n 34 then String "\" dquote
  else if Nat.eqb n 92 then "\\"
  else if Nat.eqb n 8 then "\b"
  else if Nat.eqb n 9 then "\t"
  else if Nat.eqb n 10 then "\n"
  else if Nat.eqb n 12 then "\f"
  else if Nat.eqb n 13 then "\r"
  else if Nat.ltb n 32 then
    "\u00" +:+ String (hex_digit (n / 16)) (String (hex_digit (n mod 16)) EmptyString)
  else String c EmptyString.

Fixpoint json_escape (s : string) : string :=
  match s with
  | EmptyString => EmptyString
  | String c s' => json_escape_char c +:+ json_escape s'
  end.

Definition json_quote (s : string) : string :=
  dquote +:+ json_escape s +:+ dquote.

Fixpoint join_with (sep : string) (l : list string) : string :=
  match l with
  | [] => ""
  | [x] => x
  | x :: l' => x +:+ sep +:+ join_with sep l'
  end.

(** [JSON.stringify(v)] for a value that has a text: an [undefined] array
    element prints as [null]; an [undefined] property is left out together
    with its key. *)
Fixpoint json_text (v : jsval) : string :=
  match v with
  | JUndef | JNull => "null"
  | JBool true => "true"
  | JBool false => "false"
  | JNum n => pretty n
  | JStr s => json_quote s
  | JArr elems =>
      "[" +:+ join_with ","
        ((fix items (l : list jsval) : list string :=
            match l with
            | [] => []
            | x :: l' => json_text x :: items l'
            end) elems) +:+ "]"
  | JObj props =>
      "{" +:+ join_with ","
        ((fix members (l : list (string * jsval)) : list string :=
            match l with
            | [] => []
            | (k, x) :: l' =>
                if is_undef x then members l'
                else (json_quote k +:+ ":" +:+ json_text x) :: members l'
            end) props) +:+ "}"
  end.

(** [Buffer.byteLength(s, 'utf8')]: strings here are sequences of bytes. *)
Definition byteLength (s : string) : Z := Z.of_nat (String.length s).

(** ** The event and the response payload *)

(** The event a handler receives: [CloudFormationEventContext] together with
    the [RequestType] that [safeHandler] inspects. [Data], declared [any], is
    the map of result values the response type asks for. *)
Module Event.
Record t : Type := mk {
  RequestType : string;
  StackId : string;
  RequestId : string;
  PhysicalResourceId : option string;
  LogicalResourceId : string;
  ResponseURL : string;
  Data : option dict;
}.

(** [event.PhysicalResourceId = v] *)
Definition set_PhysicalResourceId (v : string) (e : t) : t :=
  mk (RequestType e) (StackId e) (RequestId e) (Some v)
     (LogicalResourceId e) (ResponseURL e) (Data e).

(** [{ ...event, ResponseURL: v }] *)
Definition with_ResponseURL (v : string) (e : t) : t :=
  mk (RequestType e) (StackId e) (RequestId e) (PhysicalResourceId e)
     (LogicalResourceId e) v (Data e).
End Event.

Inductive CompletionStatus : Type := SUCCESS | FAILED.

Definition status_string (s : CompletionStatus) : string :=
  match s with
  | SUCCESS => "SUCCESS"
  | FAILED => "FAILED"
  end.

Record CloudFormationResponseOptions : Type := {
  reason : option string;
  noEcho : option bool;
}.

(** The default value [{ }] of the [options] parameter. *)
Definition no_options : CloudFormationResponseOptions :=
  {| reason := None; noEcho := None |}.

(** [AWSLambda.CloudFormationCustomResourceResponse], the object [json]. *)
Module Response.
Record t : Type := mk {
  Status : CompletionStatus;
  Reason : string;
  StackId : string;
  RequestId : string;
  PhysicalResourceId : string;
  LogicalResourceId : string;
  NoEcho : option bool;
  Data : option dict;
}.

(** The object literal, keys in the order they are written. *)
Definition to_js (r : t) : jsval :=
  JObj [ ("Status", JStr (status_string (Status r)));
         ("Reason", JStr (Reason r));
         ("StackId", JStr (StackId r));
         ("RequestId", JStr (RequestId r));
         ("PhysicalResourceId", JStr (PhysicalResourceId r));
         ("LogicalResourceId", JStr (LogicalResourceId r));
         ("NoEcho", match NoEcho r with Some b => JBool b | None => JUndef end);
         ("Data", match Data r with Some d => JObj d | None => JUndef end) ].
End Response.

Definition CREATE_FAILED_PHYSICAL_ID_MARKER : string :=
  "AWSCDK::CustomResourceProviderFramework::CREATE_FAILED".
Definition MISSING_PHYSICAL_ID_MARKER : string :=
  "AWSCDK::CustomResourceProviderFramework::MISSING_PHYSICAL_ID".

(** ** url.parse *)

(** The components of Node's legacy [url.parse] that [submitResponse] reads,
    for URLs of the shape
    [scheme://[user@]host[:port][/path][?query][#fragment]]; a component
    that is [null] in Node is [None]. *)
Module Url.
Record t : Type := mk {
  protocol : option string;
  hostname : option string;
  pathname : option string;
  path : option string;
}.

(** The prefix before the first character satisfying [stop], and the rest
    from that character on. *)
Fixpoint break_on (stop : ascii -> bool) (s : string) : string * string :=
  match s with
  | EmptyString => (EmptyString, EmptyString)
  | String c s' =>
      if stop c then (EmptyString, s)
      else let '(a, b) := break_on stop s' in (String c a, b)
  end.

(** The text after the last character satisfying [p], if there is one. *)
Fixpoint after_last (p : ascii -> bool) (s : string) : option string :=
  match s with
  | EmptyString => None
  | String c s' =>
      match after_last p s' with
      | Some r => Some r
      | None => if p c then Some s' else None
      end
  end.

Definition is_char (n : nat) (c : ascii) : bool := Nat.eqb (nat_of_ascii c) n.

Definition is_digit (c : ascii) : bool :=
  let n := nat_of_ascii c in Nat.leb 48 n && Nat.leb n 57.

Definition is_upper (c : ascii) : bool :=
  let n := nat_of_ascii c in Nat.leb 65 n && Nat.leb n 90.

Definition is_lower (c : ascii) : bool :=
  let n := nat_of_ascii c in Nat.leb 97 n && Nat.leb n 122.

(** [[a-z0-9.+-]], case-insensitive: the characters of a protocol. *)
Definition is_scheme_char (c : ascii) : bool :=
  is_lower c || is_upper c || is_digit c
  || is_char 46 c || is_char 43 c || is_char 45 c.

Definition lower_char (c : ascii) : ascii :=
  if is_upper c then ascii_of_nat (nat_of_ascii c + 32) else c.

Fixpoint lower (s : string) : string :=
  match s with
  | EmptyString => EmptyString
  | String c s' => String (lower_char c) (lower s')
  end.

Fixpoint all_chars (p : ascii -> bool) (s : string) : bool :=
  match s with
  | EmptyString => true
  | String c s' => p c && all_chars p s'
  end.

Definition starts_with_slashes (s : string) : bool :=
  match s with
  | String a (String b _) => is_char 47 a && is_char 47 b
  | _ => false
  end.

Definition drop2 (s : string) : string :=
  match s with
  | String _ (String _ r) => r
  | _ => EmptyString
  end.

(** The lower-cased protocol with its colon, and what follows it. *)
Definition split_protocol (s : string) : option (string * string) :=
  let '(scheme, rest) := break_on (fun c => negb (is_scheme_char c)) s in
  match scheme, rest with
  | String _ _, String c rest' =>
      if is_char 58 c then Some (lower scheme +:+ ":", rest') else None
  | _, _ => None
  end.

(** [host] without a trailing [:port]. *)
Definition strip_port (host : string) : string :=
  match after_last (is_char 58) host with
  | Some port =>
      if all_chars is_digit port
      then substring 0 (String.length host - String.length port - 1) host
      else host
  | None => host
  end.

Definition slashed_protocol (p : string) : bool :=
  String.eqb p "http:" || String.eqb p "https:" || String.eqb p "ftp:"
  || String.eqb p "gopher:" || String.eqb p "file:"
  || String.eqb p "ws:" || String.eqb p "wss:".

Definition nonempty (s : string) : option string :=
  if String.eqb s "" then None else Some s.

Definition parse (u : string) : t :=
  let '(before_hash, _) := break_on (is_char 35) u in
  let '(rest, search) := break_on (is_char 63) before_hash in
  match split_protocol rest with
  | Some (proto, after) =>
      if starts_with_slashes after then
        let '(authority, p) := break_on (is_char 47) (drop2 after) in
        let host := default authority (after_last (is_char 64) authority) in
        let name := lower (strip_port host) in
        let pathname :=
          if String.eqb p "" && slashed_protocol proto && negb (String.eqb name "")
          then Some "/" else nonempty p in
        mk (Some proto) (Some name) pathname
           (nonempty (default "" pathname +:+ search))
      else
        mk (Some proto) None (nonempty after) (nonempty (after +:+ search))
  | None =>
      mk None None (nonempty rest) (nonempty (rest +:+ search))
  end.
End Url.

(** A template literal prints [null] for a missing component. *)
Definition interpolate (x : option string) : string := default "null" x.

(** ** The world and the monad of asynchronous code *)

(** A thrown value: whether it is an instance of [Retry], and the [message]
    and [stack] it carries, if any. *)
Record JsError : Type := mkError {
  is_Retry : bool;
  message : option string;
  stack : option string;
}.

Record RequestOptions : Type := {
  hostname : option string;
  path : option string;
  method : string;
  content_type : string;
  content_length : Z;
}.

(** An argument handed to [log]: a string, the payload [json] itself, or the
    object [redactDataFromPayload(json)] returns (see [Store]). *)
Inductive LogArg : Type :=
| LStr (s : string)
| LPayload (p : Response.t)
| LRedacted (p : Response.t).

Inductive Effect : Type :=
| ELog (title : string) (args : list LogArg)
| ELogMalformed (e : Event.t)
| EHttpRequest (options : RequestOptions) (body : string)
| ESleep (ms : Z).

(** [event] is the one event object the wrapper and the inner handler share;
    [includeStackTraces] is the module variable; [trace] lists the effects so
    far, oldest first; [network i] is how the [i]-th request from now on
    ends: [None] when it is answered, [Some e] when it fails with [e]. *)
Record World : Type := mkWorld {
  event : Event.t;
  includeStackTraces : bool;
  trace : list Effect;
  network : nat -> option JsError;
}.

Inductive Outcome (A : Type) : Type :=
| Returned (a : A)
| Thrown (e : JsError).
Arguments Returned {A} a.
Arguments Thrown {A} e.

Definition M (A : Type) : Type := World -> Outcome A * World.

Definition ret {A} (a : A) : M A := fun w => (Returned a, w).

Definition throw {A} (e : JsError) : M A := fun w => (Thrown e, w).

Definition bind {A B} (m : M A) (k : A -> M B) : M B :=
  fun w =>
    match m w with
    | (Returned a, w') => k a w'
    | (Thrown e, w') => (Thrown e, w')
    end.

(** [try { m } catch (e) { h e }] *)
Definition try_catch {A} (m : M A) (h : JsError -> M A) : M A :=
  fun w =>
    match m w with
    | (Returned a, w') => (Returned a, w')
    | (Thrown e, w') => h e w'
    end.

Declare Scope js_scope.
Delimit Scope js_scope with js.
Notation "x <- m ;; k" := (bind m (fun x => k))
  (at level 100, m at next level, right associativity) : js_scope.
Notation "m ;; k" := (bind m (fun _ => k))
  (at level 100, right associativity) : js_scope.
Local Open Scope js_scope.

Definition emit (e : Effect) : M unit :=
  fun w =>
    (Returned tt,
     mkWorld (event w) (includeStackTraces w) (trace w ++ [e]) (network w)).

Definition get_event : M Event.t := fun w => (Returned (event w), w).

Definition set_event (e : Event.t) : M unit :=
  fun w =>
    (Returned tt, mkWorld e (includeStackTraces w) (trace w) (network w)).

Definition get_includeStackTraces : M bool :=
  fun w => (Returned (includeStackTraces w), w).

(** Modelled from the spec: [log] of [./util], which is not among the
    sources; a call emits one log line made of its arguments. *)
Definition log (title : string) (args : list LogArg) : M unit :=
  emit (ELog title args).

(** Modelled from the spec: [httpRequest] of [./outbound], which is not
    among the sources; one call is one delivery attempt, which the network
    answers or fails. *)
Definition httpRequest (options : RequestOptions) (body : string) : M unit :=
  fun w =>
    (match network w 0%nat with
     | None => Returned tt
     | Some e => Thrown e
     end,
     mkWorld (event w) (includeStackTraces w)
             (trace w ++ [EHttpRequest options body])
             (fun i => network w (S i))).

Record RetryOptions : Type := {
  attempts : nat;
  sleep : Z;
}.

(** Modelled from the spec: the loop of [withRetries] of [./util], which is
    not among the sources. [more] is the number of attempts left once the
    current one has failed; the delay between two attempts is the fixed
    [ms]; the error of the last attempt propagates. *)
Fixpoint retry_loop {A} (more : nat) (ms : Z) (fn : M A) : M A :=
  fun w =>
    match fn w with
    | (Returned a, w') => (Returned a, w')
    | (Thrown e, w') =>
        match more with
        | O => (Thrown e, w')
        | S more' => (emit (ESleep ms) ;; retry_loop more' ms fn) w'
        end
    end.

(** Modelled from the spec: [withRetries] of [./util], a bounded-retry
    wrapper: up to [attempts] attempts ([attempts - 1] more after a first
    one), [sleep] milliseconds between two attempts. *)
Definition withRetries {A} (options : RetryOptions) (fn : M A) : M A :=
  retry_loop (attempts options - 1) (sleep options) fn.

(** ** submitResponse *)

(** The object [json] that [submitResponse] builds. *)
Definition response_json (status : CompletionStatus) (ev : Event.t)
    (options : CloudFormationResponseOptions) : Response.t :=
  Response.mk status
    (or_default (reason options) (status_string status))
    (Event.StackId ev)
    (Event.RequestId ev)
    (or_default (Event.PhysicalResourceId ev) MISSING_PHYSICAL_ID_MARKER)
    (Event.LogicalResourceId ev)
    (noEcho options)
    (Event.Data ev).

Definition loggingSafeUrl (parsedUrl : Url.t) : string :=
  interpolate (Url.protocol parsedUrl) +:+ "//"
  +:+ interpolate (Url.hostname parsedUrl) +:+ "/"
  +:+ interpolate (Url.pathname parsedUrl) +:+ "?***".

Definition retryOptions : RetryOptions := {| attempts := 5; sleep := 1000 |}.

Definition submitResponse (status : CompletionStatus) (ev : Event.t)
    (options : CloudFormationResponseOptions) : M unit :=
  let json := response_json status ev options in
  let responseBody := json_text (Response.to_js json) in
  let parsedUrl := Url.parse (Event.ResponseURL ev) in
  (if default false (noEcho options)
   then log "submit redacted response to cloudformation"
            [LStr (loggingSafeUrl parsedUrl); LRedacted json]
   else log "submit response to cloudformation"
            [LStr (loggingSafeUrl parsedUrl); LPayload json]) ;;
  withRetries retryOptions
    (httpRequest
       {| hostname := Url.hostname parsedUrl;
          path := Url.path parsedUrl;
          method := "PUT";
          content_type := "";
          content_length := byteLength responseBody |}
       responseBody).

(** ** safeHandler *)

(** [event.RequestType === 'Delete' &&
     event.PhysicalResourceId === CREATE_FAILED_PHYSICAL_ID_MARKER] *)
Definition delete_of_failed_create (ev : Event.t) : bool :=
  String.eqb (Event.RequestType ev) "Delete"
  && bool_decide
       (Event.PhysicalResourceId ev = Some CREATE_FAILED_PHYSICAL_ID_MARKER).

(** The inner handler [block] runs in the same world: it sees and may change
    the event object, and returns or throws. *)
Definition safeHandler (block : M unit) : M unit :=
  ev <- get_event ;;
  if delete_of_failed_create ev then
    log "ignoring DELETE event caused by a failed CREATE event" [] ;;
    submitResponse SUCCESS ev no_options
  else
    try_catch block (fun e =>
      if is_Retry e then
        log "retry requested by handler" [] ;;
        throw e
      else
        ev <- get_event ;;
        (if falsy_string (Event.PhysicalResourceId ev) then
           if String.eqb (Event.RequestType ev) "Create" then
             log "CREATE failed, responding with a marker physical resource id so that the subsequent DELETE will be ignored" [] ;;
             set_event
               (Event.set_PhysicalResourceId CREATE_FAILED_PHYSICAL_ID_MARKER ev)
           else
             emit (ELogMalformed (Event.with_ResponseURL "..." ev))
         else ret tt) ;;
        ev <- get_event ;;
        ist <- get_includeStackTraces ;;
        submitResponse FAILED ev
          {| reason := if ist then stack e else message e;
             noEcho := None |}).

(** ** Reading a run *)

(** The request [submitResponse] sends for a payload, and the log line it
    prints before sending. *)
Definition request_of (ev : Event.t) (json : Response.t) : RequestOptions :=
  {| hostname := Url.hostname (Url.parse (Event.ResponseURL ev));
     path := Url.path (Url.parse (Event.ResponseURL ev));
     method := "PUT";
     content_type := "";
     content_length := byteLength (json_text (Response.to_js json)) |}.

Definition submit_log (ev : Event.t) (json : Response.t) : Effect :=
  if default false (Response.NoEcho json)
  then ELog "submit redacted response to cloudformation"
            [LStr (loggingSafeUrl (Url.parse (Event.ResponseURL ev)));
             LRedacted json]
  else ELog "submit response to cloudformation"
            [LStr (loggingSafeUrl (Url.parse (Event.ResponseURL ev)));
             LPayload json].

(** [n] delivery attempts of one request, [ms] milliseconds apart. *)
Fixpoint delivery (ms : Z) (req : RequestOptions) (body : string) (n : nat)
  : list Effect :=
  match n with
  | O => []
  | S O => [EHttpRequest req body]
  | S n' => EHttpRequest req body :: ESleep ms :: delivery ms req body n'
  end.

(** How many attempts a delivery takes on a network, when at most [S more]
    are allowed: it stops at the first answered request. *)
Fixpoint attempts_made (more : nat) (net : nat -> option JsError) : nat :=
  match net 0%nat, more with
  | None, _ => 1
  | Some _, O => 1
  | Some _, S more' => S (attempts_made more' (fun i => net (S i)))
  end.

(** How a call ends whose last request was the [n]-th of the network. *)
Definition outcome_of (net : nat -> option JsError) (n : nat) : Outcome unit :=
  match net (n - 1)%nat with
  | None => Returned tt
  | Some e => Thrown e
  end.

Definition is_request (e : Effect) : bool :=
  match e with EHttpRequest _ _ => true | _ => false end.

(** What the event is when [FAILED] is reported, and what is logged on the
    way, for a handler that left the event [ev] behind. *)
Definition event_on_failure (ev : Event.t) : Event.t :=
  if falsy_string (Event.PhysicalResourceId ev)
     && String.eqb (Event.RequestType ev) "Create"
  then Event.set_PhysicalResourceId CREATE_FAILED_PHYSICAL_ID_MARKER ev
  else ev.

Definition log_on_failure (ev : Event.t) : list Effect :=
  if falsy_string (Event.PhysicalResourceId ev) then
    if String.eqb (Event.RequestType ev) "Create"
    then [ELog "CREATE failed, responding with a marker physical resource id so that the subsequent DELETE will be ignored" []]
    else [ELogMalformed (Event.with_ResponseURL "..." ev)]
  else [].

Definition failure_options (ist : bool) (e : JsError)
  : CloudFormationResponseOptions :=
  {| reason := if ist then stack e else message e; noEcho := None |}.

(** ** Sample inputs *)

Definition sample_event (requestType : string) (id : option string) : Event.t :=
  Event.mk requestType "s" "r" id "L" "http://x/y?t=1" None.

Definition boom : JsError := mkError false (Some "boom") (Some "Error: boom").
Definition retry_signal : JsError := mkError true (Some "again") (Some "Retry: again").
Definition timeout_error : JsError := mkError false (Some "ETIMEDOUT") None.

(** A network on which the first [k] requests time out. *)
Definition fails_first (k : nat) : nat -> option JsError :=
  fun i => if Nat.ltb i k then Some timeout_error else None.

Definition sample_world (ev : Event.t) (net : nat -> option JsError) : World :=
  mkWorld ev true [] net.

(** ** A store of mutable objects *)

(** [redactDataFromPayload] copies its argument and then assigns to the copy.
    Whether the argument is left alone depends on what the copy shares with
    it, so objects live at addresses in a heap here, values may refer to
    them, and an assignment changes the heap. *)
Module Store.

Abbreviation loc := nat.

Inductive val : Type :=
| VUndef
| VNull
| VBool (b : bool)
| VNum (n : Z)
| VStr (s : string)
| VRef (l : loc).

(** An object: its own enumerable properties in insertion order (no key
    twice). An array is an object whose keys are its indices. *)
Record object : Type := mkObject {
  is_array : bool;
  props : list (string * val);
}.

(** Allocation takes the next free address: a new object goes at the end. *)
Abbreviation heap := (list object).

Definition is_VUndef (v : val) : bool :=
  match v with VUndef => true | _ => false end.

(** ToBoolean. *)
Definition truthy (v : val) : bool :=
  match v with
  | VUndef | VNull => false
  | VBool b => b
  | VNum n => negb (n =? 0)
  | VStr s => negb (String.eqb s "")
  | VRef _ => true
  end.

(** [o[k]] on a property list. *)
Fixpoint get (k : string) (ps : list (string * val)) : val :=
  match ps with
  | [] => VUndef
  | (k', v) :: ps' => if String.eqb k k' then v else get k ps'
  end.

(** [o[k] = v] on a property list: an existing key keeps its place, a new
    one goes last. *)
Fixpoint set (k : string) (v : val) (ps : list (string * val))
  : list (string * val) :=
  match ps with
  | [] => [(k, v)]
  | (k', v') :: ps' =>
      if String.eqb k k' then (k', v) :: ps' else (k', v') :: set k v ps'
  end.

Definition keys (ps : list (string * val)) : list string := map fst ps.

(** The members [JSON.stringify] prints for an object, given how it prints
    a value: a member whose value is [undefined] is left out. *)
Fixpoint members (f : val -> option jsval) (ps : list (string * val))
  : option dict :=
  match ps with
  | [] => Some []
  | (k, v) :: ps' =>
      match f v, members f ps' with
      | Some j, Some r => Some (if is_undef j then r else (k, j) :: r)
      | _, _ => None
      end
  end.

(** The elements it prints for an array: [undefined] becomes [null]. *)
Fixpoint elements (f : val -> option jsval) (ps : list (string * val))
  : option (list jsval) :=
  match ps with
  | [] => Some []
  | (_, v) :: ps' =>
      match f v, elements f ps' with
      | Some j, Some r => Some ((if is_undef j then JNull else j) :: r)
      | _, _ => None
      end
  end.

(** [JSON.stringify(v)], as the tree its text denotes; [JUndef] when there
    is no text. [None]: the traversal took more than [fuel] nested objects
    (on a cyclic structure any fuel runs out, where [JSON.stringify]
    throws) or met an address that holds no object. *)
Fixpoint stringify (fuel : nat) (h : heap) (v : val) : option jsval :=
  match v with
  | VUndef => Some JUndef
  | VNull => Some JNull
  | VBool b => Some (JBool b)
  | VNum n => Some (JNum n)
  | VStr s => Some (JStr s)
  | VRef l =>
      match fuel with
      | O => None
      | S fuel' =>
          match h !! l with
          | None => None
          | Some o =>
              if is_array o
              then JArr <$> elements (stringify fuel' h) (props o)
              else JObj <$> members (stringify fuel' h) (props o)
          end
      end
  end.

(** The keys [0], [1], ... of an array's elements, from index [i] on. *)
Fixpoint index_props (i : nat) (vs : list val) : list (string * val) :=
  match vs with
  | [] => []
  | v :: vs' => (pretty i, v) :: index_props (S i) vs'
  end.

(** [JSON.parse] of the text of [j]: every array and object of [j] becomes
    a new object in the heap. *)
Fixpoint parse (j : jsval) (h : heap) : val * heap :=
  match j with
  | JUndef => (VUndef, h)
  | JNull => (VNull, h)
  | JBool b => (VBool b, h)
  | JNum n => (VNum n, h)
  | JStr s => (VStr s, h)
  | JArr elems =>
      let '(vs, h') :=
        (fix parse_elems (l : list jsval) (h : heap) : list val * heap :=
           match l with
           | [] => ([], h)
           | x :: l' =>
               let '(v, h1) := parse x h in
               let '(vs, h2) := parse_elems l' h1 in
               (v :: vs, h2)
           end) elems h in
      (VRef (length h'), (h' ++ [mkObject true (index_props 0 vs)])%list)
  | JObj members =>
      let '(ps, h') :=
        (fix parse_members (l : list (string * jsval)) (h : heap)
           : list (string * val) * heap :=
           match l with
           | [] => ([], h)
           | (k, x) :: l' =>
               let '(v, h1) := parse x h in
               let '(ps, h2) := parse_members l' h1 in
               ((k, v) :: ps, h2)
           end) members h in
      (VRef (length h'), (h' ++ [mkObject false ps])%list)
  end.

(** The two loops of [parse], by name. *)
Definition parse_elems : list jsval -> heap -> list val * heap :=
  fix parse_elems (l : list jsval) (h : heap) : list val * heap :=
    match l with
    | [] => ([], h)
    | x :: l' =>
        let '(v, h1) := parse x h in
        let '(vs, h2) := parse_elems l' h1 in
        (v :: vs, h2)
    end.

Definition parse_members
  : list (string * jsval) -> heap -> list (string * val) * heap :=
  fix parse_members (l : list (string * jsval)) (h : heap)
    : list (string * val) * heap :=
    match l with
    | [] => ([], h)
    | (k, x) :: l' =>
        let '(v, h1) := parse x h in
        let '(ps, h2) := parse_members l' h1 in
        ((k, v) :: ps, h2)
    end.

(** [v[k] = x] in the heap, for [v] an object. *)
Definition assign (l : loc) (k : string) (x : val) (h : heap) : heap :=
  match h !! l with
  | Some o => <[l := mkObject (is_array o) (set k x (props o))]> h
  | None => h
  end.

Inductive result (A : Type) : Type :=
| Ok (a : A)
| Throws (name : string)
| OutOfFuel.
Arguments Ok {A} a.
Arguments Throws {A} name.
Arguments OutOfFuel {A}.

(** [redactDataFromPayload(payload)], run in heap [h]: the value returned
    and the heap afterwards. The module is compiled in strict mode, where
    assigning to a character of a string value throws. *)
Definition redactDataFromPayload (fuel : nat) (payload : val) (h : heap)
  : result (val * heap) :=
  match stringify fuel h payload with
  | None => OutOfFuel
  | Some JUndef => Throws "SyntaxError"
  | Some j =>
      let '(redactedPayload, h1) := parse j h in
      match redactedPayload with
      | VRef l =>
          let data := default VUndef (get "Data" ∘ props <$> h1 !! l) in
          if truthy data then
            match data with
            | VRef d =>
                let ks := default [] (keys ∘ props <$> h1 !! d) in
                Ok (redactedPayload,
                    fold_left (fun h key => assign d key (VStr "*****") h)
                              ks h1)
            | VStr _ => Throws "TypeError"
            | _ => Ok (redactedPayload, h1)
            end
          else Ok (redactedPayload, h1)
      | VNull => Throws "TypeError"
      | _ => Ok (redactedPayload, h1)
      end
  end.

(** A value that is not a reference prints as itself, whatever the fuel. *)
Definition atom (v : val) : jsval :=
  match v with
  | VUndef => JUndef
  | VNull => JNull
  | VBool b => JBool b
  | VNum n => JNum n
  | VStr s => JStr s
  | VRef _ => JUndef
  end.

(** *** Trees: what is printed, and what masking does to it *)

(** A tree that [JSON.stringify] can have printed: [undefined] nowhere
    inside. *)
Fixpoint defined (j : jsval) : bool :=
  match j with
  | JUndef => false
  | JArr elems => forallb defined elems
  | JObj members => forallb (fun '(_, x) => defined x) members
  | _ => true
  end.

(** Nesting depth: the fuel [stringify] needs. *)
Fixpoint depth (j : jsval) : nat :=
  match j with
  | JArr elems =>
      S ((fix depth_elems (l : list jsval) : nat :=
            match l with
            | [] => O
            | x :: l' => Nat.max (depth x) (depth_elems l')
            end) elems)
  | JObj members =>
      S ((fix depth_members (l : dict) : nat :=
            match l with
            | [] => O
            | (_, x) :: l' => Nat.max (depth x) (depth_members l')
            end) members)
  | _ => O
  end.

Definition depth_elems : list jsval -> nat :=
  fix depth_elems (l : list jsval) : nat :=
    match l with
    | [] => O
    | x :: l' => Nat.max (depth x) (depth_elems l')
    end.

Definition depth_members : dict -> nat :=
  fix depth_members (l : dict) : nat :=
    match l with
    | [] => O
    | (_, x) :: l' => Nat.max (depth x) (depth_members l')
    end.

(** Every value of a map masked, the keys as they are. *)
Definition mask (d : dict) : dict :=
  map (fun kv => (kv.1, JStr "*****")) d.

Definition mask_props (ps : list (string * val)) : list (string * val) :=
  map (fun kv => (kv.1, VStr "*****")) ps.

(** The members of a payload with the map under [Data] masked. *)
Fixpoint mask_data (ms : dict) : dict :=
  match ms with
  | [] => []
  | (k, x) :: ms' =>
      if String.eqb "Data" k
      then (k, match x with JObj d => JObj (mask d) | _ => x end) :: ms'
      else (k, x) :: mask_data ms'
  end.

Definition redact_json (j : jsval) : jsval :=
  match j with
  | JObj ms => JObj (mask_data ms)
  | _ => j
  end.

(** The members of an object that [JSON.stringify] prints. *)
Definition printed (ps : list (string * val)) : list (string * val) :=
  filter (fun kv => is_VUndef kv.2 = false) ps.

(** No key twice. *)
Definition well_formed (o : object) : Prop := NoDup (keys (props o)).

(** Parsing [j] adds objects at the end of the heap, and the value it
    returns prints as [j] again, whatever lies before and after them. *)
Definition parses_back (j : jsval) : Prop :=
  forall h, exists ext,
    (parse j h).2 = (h ++ ext)%list
    /\ forall pre post n,
         length pre = length h -> (depth j <= n)%nat ->
         stringify n (pre ++ ext ++ post)%list (parse j h).1 = Some j.

(** [payload.Data] is absent, or is a map. *)
Definition data_absent_or_map (h : heap) (po : object) : Prop :=
  get "Data" (props po) = VUndef
  \/ exists d dobj,
       get "Data" (props po) = VRef d /\ h !! d = Some dobj
       /\ is_array dobj = false.

(** *** Sample heaps *)

(** [{ Status: 'SUCCESS', Data: { a: undefined } }] *)
Definition undefined_value_heap : heap :=
  [ mkObject false [("a", VUndef)];
    mkObject false [("Status", VStr "SUCCESS"); ("Data", VRef 0)] ].

(** [{ Status: 'SUCCESS', NoEcho: true,
       Data: { user: 'admin', secret: { token: 42 }, tags: ['x', undefined] } }] *)
Definition sample_heap : heap :=
  [ mkObject false [("token", VNum 42)];
    mkObject true [("0", VStr "x"); ("1", VUndef)];
    mkObject false
      [("user", VStr "admin"); ("secret", VRef 0); ("tags", VRef 1)];
    mkObject false
      [("Status", VStr "SUCCESS"); ("NoEcho", VBool true); ("Data", VRef 2)] ].

End Store.

(** * Proofs *)

Local Open Scope list_scope.

(** * Facts about delivery *)

Section Delivery.
Implicit Types (net : nat -> option JsError) (more n k : nat).

Lemma attempts_made_bounds more net :
  (1 <= attempts_made more net <= S more)%nat.
Proof.
  revert net. induction more as [|more IH]; intros net; simpl.
  - destruct (net 0%nat); lia.
  - destruct (net 0%nat); [|lia].
    specialize (IH (fun i => net (S i))). lia.
Qed.

Lemma attempts_made_earlier_failed more net i :
  (S i < attempts_made more net)%nat -> net i <> None.
Proof.
  revert net i. induction more as [|more IH]; intros net i; simpl.
  - destruct (net 0%nat); lia.
  - destruct (net 0%nat) eqn:E0; [|lia].
    intros Hi. destruct i as [|i]; [congruence|].
    apply (IH (fun j => net (S j)) i). lia.
Qed.

Lemma attempts_made_stops_on_answer more net :
  (attempts_made more net < S more)%nat ->
  net (attempts_made more net - 1)%nat = None.
Proof.
  revert net. induction more as [|more IH]; intros net; simpl.
  - destruct (net 0%nat); lia.
  - destruct (net 0%nat) eqn:E0; [|intros _; exact E0].
    intros Hlt.
    pose proof (attempts_made_bounds more (fun i => net (S i))) as Hb.
    specialize (IH (fun i => net (S i))).
    replace (S (attempts_made more (fun i => net (S i))) - 1)%nat
      with (S (attempts_made more (fun i => net (S i)) - 1))%nat by lia.
    apply IH. lia.
Qed.

Lemma attempts_made_first_answer more net k :
  (k <= more)%nat -> net k = None ->
  (forall i, (i < k)%nat -> net i <> None) ->
  attempts_made more net = S k.
Proof.
  revert net k. induction more as [|more IH]; intros net k Hk Hnone Hbefore; simpl.
  - assert (k = 0)%nat as -> by lia. now rewrite Hnone.
  - destruct k as [|k].
    + now rewrite Hnone.
    + destruct (net 0%nat) eqn:E0.
      * f_equal. apply IH; [lia|exact Hnone|].
        intros i Hi. apply Hbefore. lia.
      * exfalso. apply (Hbefore 0%nat); [lia|exact E0].
Qed.

Lemma attempts_made_none_answered more net :
  (forall i, (i <= more)%nat -> net i <> None) ->
  attempts_made more net = S more.
Proof.
  revert net. induction more as [|more IH]; intros net Hall; simpl.
  - destruct (net 0%nat) eqn:E0; [reflexivity|].
    exfalso. apply (Hall 0%nat); [lia|exact E0].
  - destruct (net 0%nat) eqn:E0.
    + f_equal. apply IH. intros i Hi. apply Hall. lia.
    + exfalso. apply (Hall 0%nat); [lia|exact E0].
Qed.

Lemma delivery_step ms req body n :
  (1 <= n)%nat ->
  delivery ms req body (S n)
  = EHttpRequest req body :: ESleep ms :: delivery ms req body n.
Proof. destruct n; [lia|reflexivity]. Qed.

Lemma retry_loop_httpRequest more ms req body w :
  let n := attempts_made more (network w) in
  retry_loop more ms (httpRequest req body) w
  = (outcome_of (network w) n,
     mkWorld (event w) (includeStackTraces w)
             (trace w ++ delivery ms req body n)
             (fun i => network w (n + i)%nat)).
Proof.
  revert w. induction more as [|more IH]; intros w; simpl.
  - unfold httpRequest, outcome_of.
    destruct (network w 0%nat) eqn:E0; simpl; rewrite E0; reflexivity.
  - unfold httpRequest at 1.
    destruct (network w 0%nat) eqn:E0; simpl.
    + unfold bind, emit. simpl. rewrite IH. simpl.
      pose proof (attempts_made_bounds more (fun i => network w (S i))) as Hb.
      set (n' := attempts_made more (fun i => network w (S i))) in *.
      destruct n' as [|n'']; [lia|].
      rewrite <- !app_assoc. unfold outcome_of. simpl.
      rewrite Nat.sub_0_r. reflexivity.
    + unfold outcome_of. simpl. rewrite E0. reflexivity.
Qed.
End Delivery.

Lemma submitResponse_run status ev options w :
  let json := response_json status ev options in
  let n := attempts_made 4 (network w) in
  submitResponse status ev options w
  = (outcome_of (network w) n,
     mkWorld (event w) (includeStackTraces w)
             (trace w ++ submit_log ev json
                :: delivery 1000 (request_of ev json)
                     (json_text (Response.to_js json)) n)
             (fun i => network w (n + i)%nat)).
Proof.
  intros json n. unfold submitResponse, withRetries, retryOptions.
  cbn [attempts sleep]. unfold bind at 1.
  replace (5 - 1)%nat with 4%nat by reflexivity.
  fold json.
  assert (Hlog : forall w0,
    (if default false (noEcho options)
     then log "submit redacted response to cloudformation"
            [LStr (loggingSafeUrl (Url.parse (Event.ResponseURL ev))); LRedacted json]
     else log "submit response to cloudformation"
            [LStr (loggingSafeUrl (Url.parse (Event.ResponseURL ev))); LPayload json]) w0
    = emit (submit_log ev json) w0).
  { intros w0. unfold submit_log, log. subst json. simpl.
    destruct (default false (noEcho options)); reflexivity. }
  rewrite Hlog. unfold emit at 1.
  rewrite retry_loop_httpRequest. cbn [network trace event includeStackTraces].
  subst n. rewrite <- app_assoc. reflexivity.
Qed.

Lemma filter_delivery_requests ms req body n :
  length (filter (fun e => is_request e = true) (delivery ms req body n)) = n.
Proof.
  induction n as [|n IH]; [reflexivity|].
  destruct n as [|n]; [reflexivity|].
  change (delivery ms req body (S (S n)))
    with (EHttpRequest req body :: ESleep ms :: delivery ms req body (S n)).
  rewrite filter_cons_True by reflexivity.
  rewrite filter_cons_False by (simpl; congruence).
  cbn [length]. now rewrite IH.
Qed.

Lemma submitResponse_trace status ev options w :
  let json := response_json status ev options in
  let n := attempts_made 4 (network w) in
  trace (submitResponse status ev options w).2
  = trace w ++ submit_log ev json
      :: delivery 1000 (request_of ev json) (json_text (Response.to_js json)) n.
Proof. intros json n. now rewrite submitResponse_run. Qed.

(** * The paths through safeHandler *)

Lemma safeHandler_ignores_delete block w :
  delete_of_failed_create (event w) = true ->
  safeHandler block w
  = (log "ignoring DELETE event caused by a failed CREATE event" [] ;;
     submitResponse SUCCESS (event w) no_options) w.
Proof.
  intros Hdel. unfold safeHandler, bind at 1, get_event. now rewrite Hdel.
Qed.

Lemma safeHandler_returned block w w1 :
  delete_of_failed_create (event w) = false ->
  block w = (Returned tt, w1) ->
  safeHandler block w = (Returned tt, w1).
Proof.
  intros Hdel Hblock.
  unfold safeHandler, bind at 1, get_event. rewrite Hdel.
  unfold try_catch. now rewrite Hblock.
Qed.

Lemma safeHandler_retry block w w1 e :
  delete_of_failed_create (event w) = false ->
  block w = (Thrown e, w1) ->
  is_Retry e = true ->
  safeHandler block w
  = (Thrown e,
     mkWorld (event w1) (includeStackTraces w1)
             (trace w1 ++ [ELog "retry requested by handler" []])
             (network w1)).
Proof.
  intros Hdel Hblock Hretry.
  unfold safeHandler, bind at 1, get_event. rewrite Hdel.
  unfold try_catch. rewrite Hblock, Hretry. reflexivity.
Qed.

Lemma safeHandler_failed block w w1 e :
  delete_of_failed_create (event w) = false ->
  block w = (Thrown e, w1) ->
  is_Retry e = false ->
  safeHandler block w
  = submitResponse FAILED (event_on_failure (event w1))
      (failure_options (includeStackTraces w1) e)
      (mkWorld (event_on_failure (event w1)) (includeStackTraces w1)
               (trace w1 ++ log_on_failure (event w1)) (network w1)).
Proof.
  intros Hdel Hblock Hretry.
  unfold safeHandler, bind at 1, get_event. rewrite Hdel.
  unfold try_catch. rewrite Hblock, Hretry.
  unfold event_on_failure, log_on_failure, failure_options.
  unfold bind, get_event, get_includeStackTraces, set_event, log, emit, ret.
  destruct (falsy_string (Event.PhysicalResourceId (event w1))); simpl.
  - destruct (Event.RequestType (event w1) =? "Create")%string; simpl; reflexivity.
  - rewrite app_nil_r. destruct w1; reflexivity.
Qed.

(** * The claims *)

(** C1. A Delete event whose PhysicalResourceId is the create-failed
    sentinel: the wrapped handler's run does not depend on the inner handler
    (it is never invoked), and exactly one response is submitted, with
    status SUCCESS: one log line of the submission and one delivery of its
    text. *)
Theorem safeHandler_delete_after_failed_create (block : M unit) (w : World) :
  Event.RequestType (event w) = "Delete" ->
  Event.PhysicalResourceId (event w) = Some CREATE_FAILED_PHYSICAL_ID_MARKER ->
  let json := response_json SUCCESS (event w) no_options in
  let n := attempts_made 4 (network w) in
  (forall block', safeHandler block' w = safeHandler block w)
  /\ Response.Status json = SUCCESS
  /\ trace (safeHandler block w).2
     = trace w
       ++ [ELog "ignoring DELETE event caused by a failed CREATE event" [];
           submit_log (event w) json]
       ++ delivery 1000 (request_of (event w) json)
            (json_text (Response.to_js json)) n
  /\ (1 <= n <= 5)%nat
  /\ (safeHandler block w).1 = outcome_of (network w) n
  /\ event (safeHandler block w).2 = event w.
Proof.
  intros Htype Hid json n.
  assert (Hdel : delete_of_failed_create (event w) = true).
  { unfold delete_of_failed_create. rewrite Htype, Hid. reflexivity. }
  assert (Hrun : forall b, safeHandler b w
    = (outcome_of (network w) n,
       mkWorld (event w) (includeStackTraces w)
         (trace w
          ++ [ELog "ignoring DELETE event caused by a failed CREATE event" [];
              submit_log (event w) json]
          ++ delivery 1000 (request_of (event w) json)
               (json_text (Response.to_js json)) n)
         (fun i => network w (n + i)%nat))).
  { intros b. rewrite safeHandler_ignores_delete by exact Hdel.
    unfold bind, log, emit. rewrite submitResponse_run.
    cbn [network trace event includeStackTraces].
    rewrite <- app_assoc. reflexivity. }
  split; [intros b; now rewrite !Hrun|].
  split; [reflexivity|].
  rewrite Hrun. cbn [fst snd trace event].
  split; [reflexivity|].
  split; [apply attempts_made_bounds|].
  split; reflexivity.
Qed.

Lemma safeHandler_delete_after_failed_create_witness :
  trace (safeHandler (throw boom)
           (sample_world
              (sample_event "Delete" (Some CREATE_FAILED_PHYSICAL_ID_MARKER))
              (fails_first 1))).2
  = let ev := sample_event "Delete" (Some CREATE_FAILED_PHYSICAL_ID_MARKER) in
    let json := response_json SUCCESS ev no_options in
    [ELog "ignoring DELETE event caused by a failed CREATE event" [];
     submit_log ev json;
     EHttpRequest (request_of ev json) (json_text (Response.to_js json));
     ESleep 1000;
     EHttpRequest (request_of ev json) (json_text (Response.to_js json))].
Proof.
  exact (proj1 (proj2 (proj2
    (safeHandler_delete_after_failed_create (throw boom)
       (sample_world
          (sample_event "Delete" (Some CREATE_FAILED_PHYSICAL_ID_MARKER))
          (fails_first 1))
       eq_refl eq_refl)))).
Defined.

(** C2. A Create event with no PhysicalResourceId whose inner handler fails
    with an error that is not the Retry signal: when the wrapped handler
    completes, the event's PhysicalResourceId is the create-failed sentinel
    and a FAILED response (carrying the sentinel) has been submitted. The
    event is read as the failing handler leaves it, which is the event
    received unless the handler assigned to it. *)
Theorem safeHandler_failed_create_marks_event
    (block : M unit) (w w1 : World) (e : JsError) :
  delete_of_failed_create (event w) = false ->
  block w = (Thrown e, w1) ->
  is_Retry e = false ->
  Event.RequestType (event w1) = "Create" ->
  falsy_string (Event.PhysicalResourceId (event w1)) = true ->
  let ev' :=
    Event.set_PhysicalResourceId CREATE_FAILED_PHYSICAL_ID_MARKER (event w1) in
  let json :=
    response_json FAILED ev' (failure_options (includeStackTraces w1) e) in
  let n := attempts_made 4 (network w1) in
  Event.PhysicalResourceId (event (safeHandler block w).2)
    = Some CREATE_FAILED_PHYSICAL_ID_MARKER
  /\ event (safeHandler block w).2 = ev'
  /\ Response.Status json = FAILED
  /\ Response.PhysicalResourceId json = CREATE_FAILED_PHYSICAL_ID_MARKER
  /\ trace (safeHandler block w).2
     = trace w1
       ++ [ELog "CREATE failed, responding with a marker physical resource id so that the subsequent DELETE will be ignored" [];
           submit_log ev' json]
       ++ delivery 1000 (request_of ev' json)
            (json_text (Response.to_js json)) n
  /\ (1 <= n <= 5)%nat.
Proof.
  intros Hdel Hblock Hretry Htype Hid ev' json n.
  rewrite (safeHandler_failed block w w1 e Hdel Hblock Hretry).
  rewrite submitResponse_run.
  unfold event_on_failure, log_on_failure. rewrite Hid, Htype.
  cbn [andb String.eqb fst snd trace event network includeStackTraces].
  change ("Create" =? "Create")%string with true. cbn iota.
  fold ev'. fold json. fold n.
  repeat split; try reflexivity.
  - now rewrite <- app_assoc.
  - apply attempts_made_bounds.
  - apply attempts_made_bounds.
Qed.

Lemma safeHandler_failed_create_marks_event_witness :
  Event.PhysicalResourceId
    (event (safeHandler (throw boom)
              (sample_world (sample_event "Create" None) (fails_first 0))).2)
  = Some CREATE_FAILED_PHYSICAL_ID_MARKER.
Proof.
  exact (proj1
    (safeHandler_failed_create_marks_event (throw boom)
       (sample_world (sample_event "Create" None) (fails_first 0))
       (sample_world (sample_event "Create" None) (fails_first 0))
       boom eq_refl eq_refl eq_refl eq_refl eq_refl)).
Defined.

(** C3. An inner handler that fails with the Retry signal: the wrapped
    handler throws that same error, and on top of what the inner handler
    did it only prints one log line: no response is submitted, neither
    SUCCESS nor FAILED, and the event is left as it was. *)
Theorem safeHandler_retry_rethrown
    (block : M unit) (w w1 : World) (e : JsError) :
  delete_of_failed_create (event w) = false ->
  block w = (Thrown e, w1) ->
  is_Retry e = true ->
  (safeHandler block w).1 = Thrown e
  /\ trace (safeHandler block w).2
     = trace w1 ++ [ELog "retry requested by handler" []]
  /\ filter (fun x => is_request x = true) (trace (safeHandler block w).2)
     = filter (fun x => is_request x = true) (trace w1)
  /\ event (safeHandler block w).2 = event w1
  /\ network (safeHandler block w).2 = network w1.
Proof.
  intros Hdel Hblock Hretry.
  rewrite (safeHandler_retry block w w1 e Hdel Hblock Hretry).
  cbn [fst snd trace event network].
  repeat split; try reflexivity.
  rewrite filter_app, filter_cons_False by (simpl; congruence).
  now rewrite filter_nil, app_nil_r.
Qed.

Lemma safeHandler_retry_rethrown_witness :
  (safeHandler (throw retry_signal)
     (sample_world (sample_event "Update" (Some "id-1")) (fails_first 0))).1
  = Thrown retry_signal.
Proof.
  exact (proj1
    (safeHandler_retry_rethrown (throw retry_signal)
       (sample_world (sample_event "Update" (Some "id-1")) (fails_first 0))
       (sample_world (sample_event "Update" (Some "id-1")) (fails_first 0))
       retry_signal eq_refl eq_refl eq_refl)).
Defined.

(** C7. An event that is not a Create (a Delete or an Update) and has no
    PhysicalResourceId, hence not the create-failed sentinel, whose inner
    handler fails with an error that is not the Retry signal: the wrapped
    handler logs the malformed event (with its ResponseURL masked), leaves
    the event as it is, and goes on to submit a FAILED response whose
    PhysicalResourceId is the missing-id sentinel; it ends as that delivery
    ends, so nothing is thrown by the malformed-event branch. *)
Theorem safeHandler_malformed_event_reported
    (block : M unit) (w w1 : World) (e : JsError) :
  delete_of_failed_create (event w) = false ->
  block w = (Thrown e, w1) ->
  is_Retry e = false ->
  Event.RequestType (event w1) <> "Create" ->
  falsy_string (Event.PhysicalResourceId (event w1)) = true ->
  let json :=
    response_json FAILED (event w1)
      (failure_options (includeStackTraces w1) e) in
  let n := attempts_made 4 (network w1) in
  trace (safeHandler block w).2
  = trace w1
    ++ [ELogMalformed (Event.with_ResponseURL "..." (event w1));
        submit_log (event w1) json]
    ++ delivery 1000 (request_of (event w1) json)
         (json_text (Response.to_js json)) n
  /\ (1 <= n <= 5)%nat
  /\ (safeHandler block w).1 = outcome_of (network w1) n
  /\ event (safeHandler block w).2 = event w1
  /\ Response.Status json = FAILED
  /\ Response.PhysicalResourceId json = MISSING_PHYSICAL_ID_MARKER.
Proof.
  intros Hdel Hblock Hretry Htype Hid json n.
  rewrite (safeHandler_failed block w w1 e Hdel Hblock Hretry).
  rewrite submitResponse_run.
  unfold event_on_failure, log_on_failure. rewrite Hid.
  apply String.eqb_neq in Htype. rewrite Htype.
  cbn [andb fst snd trace event network includeStackTraces].
  fold json. fold n.
  repeat split; try reflexivity.
  - now rewrite <- app_assoc.
  - apply attempts_made_bounds.
  - apply attempts_made_bounds.
  - unfold json, response_json. cbn [Response.PhysicalResourceId].
    unfold falsy_string in Hid. unfold or_default.
    destruct (Event.PhysicalResourceId (event w1)); [now rewrite Hid|reflexivity].
Qed.

Lemma safeHandler_malformed_event_reported_witness :
  event (safeHandler (throw boom)
           (sample_world (sample_event "Update" None) (fails_first 2))).2
  = sample_event "Update" None.
Proof.
  refine (proj1 (proj2 (proj2 (proj2
    (safeHandler_malformed_event_reported (throw boom)
       (sample_world (sample_event "Update" None) (fails_first 2))
       (sample_world (sample_event "Update" None) (fails_first 2))
       boom eq_refl eq_refl eq_refl _ eq_refl))))).
  discriminate.
Defined.

(** C8, as stated, fails: for a Create event that carries an id when its
    handler fails, no malformed-event line is logged. *)
Lemma safeHandler_create_with_id_counterexample :
  let w := sample_world (sample_event "Create" (Some "id-1")) (fails_first 0) in
  delete_of_failed_create (event w) = false
  /\ (throw boom : M unit) w = (Thrown boom, w)
  /\ is_Retry boom = false
  /\ Event.RequestType (event w) = "Create"
  /\ Event.PhysicalResourceId (event w) = Some "id-1"
  /\ ~ (exists ev, In (ELogMalformed ev) (trace (safeHandler (throw boom) w).2)).
Proof.
  repeat split.
  intros [ev Hin]. vm_compute in Hin.
  destruct Hin as [H|[H|[]]]; discriminate H.
Qed.

(** C8, amended. A Create event whose inner handler fails with an error that
    is not the Retry signal while a (non-empty) PhysicalResourceId is known
    on the event: the wrapped handler logs no malformed-event line and
    nothing else before the submission, leaves the event and its
    PhysicalResourceId as they are, and submits a FAILED response carrying
    that id. *)
Theorem safeHandler_create_with_id_reported
    (block : M unit) (w w1 : World) (e : JsError) (id : string) :
  delete_of_failed_create (event w) = false ->
  block w = (Thrown e, w1) ->
  is_Retry e = false ->
  Event.RequestType (event w1) = "Create" ->
  Event.PhysicalResourceId (event w1) = Some id ->
  id <> "" ->
  let json :=
    response_json FAILED (event w1)
      (failure_options (includeStackTraces w1) e) in
  let n := attempts_made 4 (network w1) in
  trace (safeHandler block w).2
  = trace w1
    ++ [submit_log (event w1) json]
    ++ delivery 1000 (request_of (event w1) json)
         (json_text (Response.to_js json)) n
  /\ (1 <= n <= 5)%nat
  /\ (forall ev, ~ In (ELogMalformed ev) (trace w1) ->
        ~ In (ELogMalformed ev) (trace (safeHandler block w).2))
  /\ event (safeHandler block w).2 = event w1
  /\ Response.Status json = FAILED
  /\ Response.PhysicalResourceId json = id.
Proof.
  intros Hdel Hblock Hretry Htype Hid Hne json n.
  assert (Hfalsy : falsy_string (Event.PhysicalResourceId (event w1)) = false).
  { rewrite Hid. simpl. now apply String.eqb_neq. }
  rewrite (safeHandler_failed block w w1 e Hdel Hblock Hretry).
  rewrite submitResponse_run.
  unfold event_on_failure, log_on_failure. rewrite Hfalsy.
  cbn [andb fst snd trace event network includeStackTraces].
  fold json. fold n. rewrite app_nil_r.
  assert (Hdelivery : forall ev m,
    ~ In (ELogMalformed ev)
        (delivery 1000 (request_of (event w1) json)
           (json_text (Response.to_js json)) m)).
  { intros ev m. induction m as [|m IH]; [intros []|].
    destruct m as [|m]; simpl; intros [H|H]; try discriminate; try easy.
    destruct H as [H|H]; [discriminate|]. now apply IH. }
  repeat split; try reflexivity.
  - apply attempts_made_bounds.
  - apply attempts_made_bounds.
  - intros ev Hnot Hin. apply in_app_or in Hin as [Hin|Hin]; [now apply Hnot|].
    destruct Hin as [Hin|Hin]; [|now apply (Hdelivery ev n)].
    unfold submit_log in Hin.
    destruct (default false (Response.NoEcho json)); discriminate.
  - unfold json, response_json. cbn [Response.PhysicalResourceId].
    rewrite Hid. unfold or_default.
    apply String.eqb_neq in Hne. now rewrite Hne.
Qed.

Lemma safeHandler_create_with_id_reported_witness :
  event (safeHandler (throw boom)
           (sample_world (sample_event "Create" (Some "id-1")) (fails_first 0))).2
  = sample_event "Create" (Some "id-1").
Proof.
  refine (proj1 (proj2 (proj2 (proj2
    (safeHandler_create_with_id_reported (throw boom)
       (sample_world (sample_event "Create" (Some "id-1")) (fails_first 0))
       (sample_world (sample_event "Create" (Some "id-1")) (fails_first 0))
       boom "id-1" eq_refl eq_refl eq_refl eq_refl eq_refl _))))).
  discriminate.
Defined.

(** C5. [submitResponse] hands the payload to the bounded-retry wrapper:
    after its log line come [n] delivery attempts of the same request, two
    consecutive ones 1000 ms apart, with [n] at most 5. If none of the five
    is answered, all five are made and the error of the last one is thrown
    to the caller; if the [k]-th (k at most 5) is the first one answered,
    the call returns after exactly [k] attempts. *)
Theorem submitResponse_bounded_retry
    (status : CompletionStatus) (ev : Event.t)
    (options : CloudFormationResponseOptions) (w : World) :
  let json := response_json status ev options in
  let n := attempts_made 4 (network w) in
  let run := submitResponse status ev options w in
  trace run.2
  = trace w ++ submit_log ev json
      :: delivery 1000 (request_of ev json) (json_text (Response.to_js json)) n
  /\ length (filter (fun x => is_request x = true)
               (delivery 1000 (request_of ev json)
                  (json_text (Response.to_js json)) n)) = n
  /\ (1 <= n <= 5)%nat
  /\ ((forall i, (i < 5)%nat -> network w i <> None) ->
      n = 5%nat /\ exists e, network w 4%nat = Some e /\ run.1 = Thrown e)
  /\ (forall k, (k < 5)%nat -> network w k = None ->
      (forall i, (i < k)%nat -> network w i <> None) ->
      n = S k /\ run.1 = Returned tt).
Proof.
  intros json n run. subst run. rewrite submitResponse_run.
  fold json. fold n. cbn [fst snd trace].
  split; [reflexivity|].
  split; [apply filter_delivery_requests|].
  split; [apply attempts_made_bounds|].
  split.
  - intros Hall.
    assert (Hn : n = 5%nat).
    { apply attempts_made_none_answered. intros i Hi. apply Hall. lia. }
    split; [exact Hn|].
    rewrite Hn. unfold outcome_of. cbn [Nat.sub].
    specialize (Hall 4%nat ltac:(lia)).
    destruct (network w 4%nat) as [e|]; [|congruence].
    exists e. split; reflexivity.
  - intros k Hk Hnone Hbefore.
    assert (Hn : n = S k).
    { apply attempts_made_first_answer; [lia|exact Hnone|exact Hbefore]. }
    split; [exact Hn|].
    rewrite Hn. unfold outcome_of. cbn [Nat.sub]. rewrite Nat.sub_0_r.
    now rewrite Hnone.
Qed.

Lemma submitResponse_bounded_retry_witness :
  attempts_made 4 (fails_first 4) = 5%nat
  /\ (submitResponse SUCCESS (sample_event "Create" (Some "id-1")) no_options
        (sample_world (sample_event "Create" (Some "id-1")) (fails_first 4))).1
     = Returned tt.
Proof.
  refine (proj2 (proj2 (proj2 (proj2
    (submitResponse_bounded_retry SUCCESS
       (sample_event "Create" (Some "id-1")) no_options
       (sample_world (sample_event "Create" (Some "id-1")) (fails_first 4))))))
    4%nat _ eq_refl _).
  - lia.
  - intros i Hi.
    destruct i as [|[|[|[|i]]]]; [discriminate..|lia].
Defined.

(** C9 fails on the code. For the callback URL [http://x/y?t=1] the one log
    line of [submitResponse] carries [http://x//y?***]: the query is masked,
    but the path is not intact, a second slash precedes it. *)
Theorem submitResponse_logged_url_doubles_slash (w : World) :
  let ev := Event.mk "Create" "s" "r" None "L" "http://x/y?t=1" None in
  let options := {| reason := Some "boom"; noEcho := None |} in
  let json := response_json FAILED ev options in
  let n := attempts_made 4 (network w) in
  trace (submitResponse FAILED ev options w).2
  = trace w
    ++ ELog "submit response to cloudformation"
         [LStr "http://x//y?***"; LPayload json]
    :: delivery 1000 (request_of ev json) (json_text (Response.to_js json)) n
  /\ loggingSafeUrl (Url.parse "http://x/y?t=1") <> "http://x/y?***".
Proof.
  intros ev options json n. split.
  - now rewrite submitResponse_trace.
  - vm_compute. discriminate.
Qed.

(** C4, as stated, fails: a reason that is supplied as the empty string is
    not the Reason of the payload. *)
Lemma response_json_reason_counterexample :
  let options := {| reason := Some ""; noEcho := None |} in
  reason options = Some ""
  /\ Response.Reason (response_json FAILED (sample_event "Create" None) options)
     = "FAILED"
  /\ Response.Reason (response_json FAILED (sample_event "Create" None) options)
     <> "".
Proof. repeat split. discriminate. Qed.

(** C4, amended. The payload [submitResponse] builds, logs and sends has a
    PhysicalResourceId that is never empty: the event's when that is present
    and not empty, the missing-id sentinel when it is absent. Its Reason is
    [options.reason] when that is supplied and not empty, and the status as a
    string when no reason, or an empty one, is supplied. *)
Theorem submitResponse_payload_defaults
    (status : CompletionStatus) (ev : Event.t)
    (options : CloudFormationResponseOptions) (w : World) :
  let json := response_json status ev options in
  let n := attempts_made 4 (network w) in
  trace (submitResponse status ev options w).2
  = trace w ++ submit_log ev json
      :: delivery 1000 (request_of ev json) (json_text (Response.to_js json)) n
  /\ Response.Status json = status
  /\ Response.PhysicalResourceId json <> ""
  /\ (Event.PhysicalResourceId ev = None ->
      Response.PhysicalResourceId json = MISSING_PHYSICAL_ID_MARKER)
  /\ (forall id, Event.PhysicalResourceId ev = Some id -> id <> "" ->
      Response.PhysicalResourceId json = id)
  /\ (forall r, reason options = Some r -> r <> "" -> Response.Reason json = r)
  /\ (reason options = None \/ reason options = Some "" ->
      Response.Reason json = status_string status).
Proof.
  intros json n.
  split; [apply submitResponse_trace|].
  split; [reflexivity|].
  unfold json, response_json.
  cbn [Response.PhysicalResourceId Response.Reason]. unfold or_default.
  repeat split.
  - destruct (Event.PhysicalResourceId ev) as [id|]; [|discriminate].
    destruct (String.eqb_spec id ""); [discriminate|assumption].
  - now intros ->.
  - intros id -> Hne. apply String.eqb_neq in Hne. now rewrite Hne.
  - intros r -> Hne. apply String.eqb_neq in Hne. now rewrite Hne.
  - intros [-> | ->]; reflexivity.
Qed.

Lemma submitResponse_payload_defaults_witness :
  Response.Reason
    (response_json FAILED (sample_event "Create" None)
       {| reason := Some "boom"; noEcho := None |}) = "boom".
Proof.
  refine (proj1 (proj2 (proj2 (proj2 (proj2 (proj2
    (submitResponse_payload_defaults FAILED (sample_event "Create" None)
       {| reason := Some "boom"; noEcho := None |}
       (sample_world (sample_event "Create" None) (fails_first 0))))))))
    "boom" eq_refl _).
  discriminate.
Defined.

(** C10. [submitResponse] treats the empty string as absent: for an event
    whose PhysicalResourceId is the empty string the payload it sends
    carries the missing-id sentinel, and for options whose reason is the
    empty string its Reason is the status as a string. *)
Theorem submitResponse_empty_string_is_absent
    (status : CompletionStatus) (ev : Event.t)
    (options : CloudFormationResponseOptions) (w : World) :
  let json := response_json status ev options in
  let n := attempts_made 4 (network w) in
  trace (submitResponse status ev options w).2
  = trace w ++ submit_log ev json
      :: delivery 1000 (request_of ev json) (json_text (Response.to_js json)) n
  /\ (1 <= n)%nat
  /\ (Event.PhysicalResourceId ev = Some "" ->
      Response.PhysicalResourceId json = MISSING_PHYSICAL_ID_MARKER)
  /\ (reason options = Some "" ->
      Response.Reason json = status_string status).
Proof.
  intros json n.
  split; [apply submitResponse_trace|].
  split; [apply attempts_made_bounds|].
  unfold json, response_json.
  cbn [Response.PhysicalResourceId Response.Reason].
  split; intros ->; reflexivity.
Qed.

Lemma submitResponse_empty_string_is_absent_witness :
  Response.PhysicalResourceId
    (response_json SUCCESS (sample_event "Update" (Some ""))
       {| reason := Some ""; noEcho := None |})
  = MISSING_PHYSICAL_ID_MARKER
  /\ Response.Reason
       (response_json SUCCESS (sample_event "Update" (Some ""))
          {| reason := Some ""; noEcho := None |})
     = "SUCCESS".
Proof.
  pose proof (submitResponse_empty_string_is_absent SUCCESS
    (sample_event "Update" (Some ""))
    {| reason := Some ""; noEcho := None |}
    (sample_world (sample_event "Update" (Some "")) (fails_first 0))) as H.
  destruct H as (_ & _ & Hid & Hreason).
  split; [exact (Hid eq_refl)|exact (Hreason eq_refl)].
Defined.

(** * The store: copying and masking *)

Module StoreFacts.
Import Store.

(** ** Unfolding *)

Lemma parse_JObj ms h :
  parse (JObj ms) h
  = let '(ps, h') := parse_members ms h in
    (VRef (length h'), h' ++ [mkObject false ps]).
Proof. reflexivity. Qed.

Lemma parse_JArr es h :
  parse (JArr es) h
  = let '(vs, h') := parse_elems es h in
    (VRef (length h'), h' ++ [mkObject true (index_props 0 vs)]).
Proof. reflexivity. Qed.

Lemma parse_members_cons k x ms h :
  parse_members ((k, x) :: ms) h
  = let '(v, h1) := parse x h in
    let '(ps, h2) := parse_members ms h1 in
    ((k, v) :: ps, h2).
Proof. reflexivity. Qed.

Lemma parse_elems_cons x es h :
  parse_elems (x :: es) h
  = let '(v, h1) := parse x h in
    let '(vs, h2) := parse_elems es h1 in
    (v :: vs, h2).
Proof. reflexivity. Qed.

Lemma depth_JObj ms : depth (JObj ms) = S (depth_members ms).
Proof. reflexivity. Qed.

Lemma depth_JArr es : depth (JArr es) = S (depth_elems es).
Proof. reflexivity. Qed.

Lemma stringify_VRef n h l :
  stringify (S n) h (VRef l)
  = match h !! l with
    | None => None
    | Some o =>
        if is_array o
        then JArr <$> elements (stringify n h) (props o)
        else JObj <$> members (stringify n h) (props o)
    end.
Proof. reflexivity. Qed.

Lemma stringify_atom n h v :
  (forall l, v <> VRef l) -> stringify n h v = Some (atom v).
Proof.
  intros Hv. destruct n, v; try reflexivity; now destruct (Hv l).
Qed.

(** Induction on trees, with the hypothesis for every element or member. *)
Lemma jsval_nested_ind (P : jsval -> Prop) :
  P JUndef -> P JNull -> (forall b, P (JBool b)) -> (forall n, P (JNum n)) ->
  (forall s, P (JStr s)) ->
  (forall es, Forall P es -> P (JArr es)) ->
  (forall ms, Forall (fun kv => P kv.2) ms -> P (JObj ms)) ->
  forall j, P j.
Proof.
  intros HU HN HB HZ HS HA HO.
  fix IH 1. intros [| |b|n|s|es|ms].
  - exact HU.
  - exact HN.
  - apply HB.
  - apply HZ.
  - apply HS.
  - apply HA. induction es as [|x es IHes]; constructor; [apply IH|exact IHes].
  - apply HO. induction ms as [|[k x] ms IHms]; constructor; [apply IH|exact IHms].
Qed.

(** ** Fuel *)

Lemma members_impl (f g : val -> option jsval) ps r :
  (forall v j, f v = Some j -> g v = Some j) ->
  members f ps = Some r -> members g ps = Some r.
Proof.
  intros Hfg. revert r. induction ps as [|[k v] ps IH]; intros r; simpl; [easy|].
  destruct (f v) as [j|] eqn:Ef; [|easy].
  destruct (members f ps) as [r'|] eqn:Em; [|easy].
  intros Hr. rewrite (Hfg _ _ Ef), (IH _ eq_refl). exact Hr.
Qed.

Lemma elements_impl (f g : val -> option jsval) ps r :
  (forall v j, f v = Some j -> g v = Some j) ->
  elements f ps = Some r -> elements g ps = Some r.
Proof.
  intros Hfg. revert r. induction ps as [|[k v] ps IH]; intros r; simpl; [easy|].
  destruct (f v) as [j|] eqn:Ef; [|easy].
  destruct (elements f ps) as [r'|] eqn:Em; [|easy].
  intros Hr. rewrite (Hfg _ _ Ef), (IH _ eq_refl). exact Hr.
Qed.

(** More fuel does not change a result. *)
Lemma stringify_more_fuel n m h v j :
  stringify n h v = Some j -> (n <= m)%nat -> stringify m h v = Some j.
Proof.
  revert m v j. induction n as [|n IH]; intros m v j Hs Hle.
  - destruct v; try (rewrite stringify_atom in * by congruence; exact Hs).
    discriminate Hs.
  - destruct v; try (rewrite stringify_atom in * by congruence; exact Hs).
    destruct m as [|m]; [lia|].
    rewrite stringify_VRef in *.
    destruct (h !! l) as [o|]; [|easy].
    destruct (is_array o).
    + destruct (elements (stringify n h) (props o)) as [r|] eqn:Er; [|easy].
      erewrite elements_impl; [exact Hs| |exact Er].
      intros v' j' Hv'. apply IH; [exact Hv'|lia].
    + destruct (members (stringify n h) (props o)) as [r|] eqn:Er; [|easy].
      erewrite members_impl; [exact Hs| |exact Er].
      intros v' j' Hv'. apply IH; [exact Hv'|lia].
Qed.

Lemma members_depth (f : val -> option jsval) n ps r :
  (forall v j, f v = Some j -> (depth j <= n)%nat) ->
  members f ps = Some r -> (depth_members r <= n)%nat.
Proof.
  intros Hf. revert r. induction ps as [|[k v] ps IH]; intros r; simpl.
  - intros [= <-]. simpl. lia.
  - destruct (f v) as [j|] eqn:Ef; [|easy].
    destruct (members f ps) as [r'|] eqn:Em; [|easy].
    intros [= <-]. specialize (IH _ eq_refl). specialize (Hf _ _ Ef).
    destruct (is_undef j); simpl; lia.
Qed.

Lemma elements_depth (f : val -> option jsval) n ps r :
  (forall v j, f v = Some j -> (depth j <= n)%nat) ->
  elements f ps = Some r -> (depth_elems r <= n)%nat.
Proof.
  intros Hf. revert r. induction ps as [|[k v] ps IH]; intros r; simpl.
  - intros [= <-]. simpl. lia.
  - destruct (f v) as [j|] eqn:Ef; [|easy].
    destruct (elements f ps) as [r'|] eqn:Em; [|easy].
    intros [= <-]. specialize (IH _ eq_refl). specialize (Hf _ _ Ef).
    destruct (is_undef j); simpl; lia.
Qed.

(** The fuel spent bounds the depth of what is printed. *)
Lemma stringify_depth n h v j :
  stringify n h v = Some j -> (depth j <= n)%nat.
Proof.
  revert v j. induction n as [|n IH]; intros v j Hs.
  - destruct v; try (rewrite stringify_atom in Hs by congruence;
                     injection Hs as <-; simpl; lia).
    discriminate Hs.
  - destruct v; try (rewrite stringify_atom in Hs by congruence;
                     injection Hs as <-; simpl; lia).
    rewrite stringify_VRef in Hs.
    destruct (h !! l) as [o|]; [|easy].
    destruct (is_array o).
    + destruct (elements (stringify n h) (props o)) as [r|] eqn:Er; [|easy].
      injection Hs as <-. rewrite depth_JArr.
      apply le_n_S. eapply elements_depth; [|exact Er]. exact IH.
    + destruct (members (stringify n h) (props o)) as [r|] eqn:Er; [|easy].
      injection Hs as <-. rewrite depth_JObj.
      apply le_n_S. eapply members_depth; [|exact Er]. exact IH.
Qed.

(** ** What is printed has no [undefined] inside *)

Lemma stringify_undef n h v j :
  stringify n h v = Some j -> is_undef j = is_VUndef v.
Proof.
  intros Hs. destruct v;
    try (rewrite stringify_atom in Hs by congruence; now injection Hs as <-).
  destruct n as [|n]; [discriminate Hs|].
  rewrite stringify_VRef in Hs.
  destruct (h !! l) as [o|]; [|easy].
  destruct (is_array o).
  - destruct (elements _ _); [now injection Hs as <-|easy].
  - destruct (members _ _); [now injection Hs as <-|easy].
Qed.

Lemma members_defined (f : val -> option jsval) ps r :
  (forall v j, f v = Some j -> is_undef j = false -> defined j = true) ->
  members f ps = Some r ->
  forallb (fun '(_, x) => defined x) r = true.
Proof.
  intros Hf. revert r. induction ps as [|[k v] ps IH]; intros r; simpl.
  - now intros [= <-].
  - destruct (f v) as [j|] eqn:Ef; [|easy].
    destruct (members f ps) as [r'|] eqn:Em; [|easy].
    intros [= <-]. specialize (IH _ eq_refl).
    destruct (is_undef j) eqn:Eu; [exact IH|].
    simpl. now rewrite (Hf _ _ Ef Eu), IH.
Qed.

Lemma elements_defined (f : val -> option jsval) ps r :
  (forall v j, f v = Some j -> is_undef j = false -> defined j = true) ->
  elements f ps = Some r ->
  forallb defined r = true.
Proof.
  intros Hf. revert r. induction ps as [|[k v] ps IH]; intros r; simpl.
  - now intros [= <-].
  - destruct (f v) as [j|] eqn:Ef; [|easy].
    destruct (elements f ps) as [r'|] eqn:Em; [|easy].
    intros [= <-]. specialize (IH _ eq_refl).
    destruct (is_undef j) eqn:Eu; [exact IH|].
    simpl. now rewrite (Hf _ _ Ef Eu), IH.
Qed.

Lemma stringify_defined n h v j :
  stringify n h v = Some j -> is_undef j = false -> defined j = true.
Proof.
  revert v j. induction n as [|n IH]; intros v j Hs Hu.
  - destruct v;
      try (rewrite stringify_atom in Hs by congruence;
           injection Hs as <-; (reflexivity || discriminate Hu)).
    discriminate Hs.
  - destruct v;
      try (rewrite stringify_atom in Hs by congruence;
           injection Hs as <-; (reflexivity || discriminate Hu)).
    rewrite stringify_VRef in Hs.
    destruct (h !! l) as [o|]; [|easy].
    destruct (is_array o).
    + destruct (elements (stringify n h) (props o)) as [r|] eqn:Er; [|easy].
      injection Hs as <-. simpl. eapply elements_defined; [exact IH|exact Er].
    + destruct (members (stringify n h) (props o)) as [r|] eqn:Er; [|easy].
      injection Hs as <-. simpl. eapply members_defined; [exact IH|exact Er].
Qed.

(** The keys printed are those of the members that are not [undefined]. *)
Lemma members_keys n h ps r :
  members (stringify n h) ps = Some r ->
  map fst r = keys (printed ps).
Proof.
  revert r. induction ps as [|[k v] ps IH]; intros r; simpl.
  - now intros [= <-].
  - destruct (stringify n h v) as [j|] eqn:Ef; [|easy].
    destruct (members (stringify n h) ps) as [r'|] eqn:Em; [|easy].
    intros [= <-]. specialize (IH _ eq_refl).
    rewrite (stringify_undef _ _ _ _ Ef).
    unfold printed, keys in *.
    destruct (is_VUndef v) eqn:Ev.
    + rewrite filter_cons_False by (simpl; congruence). exact IH.
    + rewrite filter_cons_True by exact Ev. simpl. now rewrite IH.
Qed.

(** ** Parsing what was printed *)

Lemma defined_not_undef j : defined j = true -> is_undef j = false.
Proof. now destruct j. Qed.

Lemma parse_members_back ms :
  Forall (fun kv => defined kv.2 = true -> parses_back kv.2) ms ->
  forallb (fun '(_, x) => defined x) ms = true ->
  forall h, exists ext,
    (parse_members ms h).2 = h ++ ext
    /\ keys (parse_members ms h).1 = map fst ms
    /\ forall pre post n,
         length pre = length h -> (depth_members ms <= n)%nat ->
         members (stringify n (pre ++ ext ++ post)) (parse_members ms h).1
         = Some ms.
Proof.
  induction 1 as [|[k x] ms Hx _ IH]; intros Hdef h.
  - exists []. simpl. rewrite app_nil_r. repeat split.
  - simpl in Hdef. apply andb_prop in Hdef as [Hdx Hdms].
    cbn [snd] in Hx.
    destruct (Hx Hdx h) as (e1 & Hh1 & Hback1).
    rewrite parse_members_cons.
    destruct (parse x h) as [v h1] eqn:Ep. rewrite ?Ep in Hh1, Hback1. simpl in Hh1, Hback1. subst h1.
    destruct (IH Hdms (h ++ e1)) as (e2 & Hh2 & Hkeys & Hback2).
    destruct (parse_members ms (h ++ e1)) as [ps h2] eqn:Epm.
    rewrite ?Epm in Hh2, Hkeys, Hback2.
    simpl in Hh2, Hkeys, Hback2. subst h2.
    exists (e1 ++ e2). simpl. rewrite <- app_assoc. split; [reflexivity|].
    split; [now rewrite Hkeys|].
    intros pre post n Hlen Hn.
    change (depth_members ((k, x) :: ms))
      with (Nat.max (depth x) (depth_members ms)) in Hn.
    rewrite <- (app_assoc e1 e2 post).
    rewrite (Hback1 pre (e2 ++ post) n Hlen ltac:(lia)).
    rewrite (app_assoc pre e1 (e2 ++ post)).
    rewrite (Hback2 (pre ++ e1) post n); [| |lia].
    + now rewrite (defined_not_undef _ Hdx).
    + rewrite !length_app. lia.
Qed.

Lemma parse_elems_back es :
  Forall (fun x => defined x = true -> parses_back x) es ->
  forallb defined es = true ->
  forall h, exists ext,
    (parse_elems es h).2 = h ++ ext
    /\ forall i pre post n,
         length pre = length h -> (depth_elems es <= n)%nat ->
         elements (stringify n (pre ++ ext ++ post))
           (index_props i (parse_elems es h).1)
         = Some es.
Proof.
  induction 1 as [|x es Hx _ IH]; intros Hdef h.
  - exists []. simpl. rewrite app_nil_r. repeat split.
  - simpl in Hdef. apply andb_prop in Hdef as [Hdx Hdes].
    cbn [snd] in Hx.
    destruct (Hx Hdx h) as (e1 & Hh1 & Hback1).
    rewrite parse_elems_cons.
    destruct (parse x h) as [v h1] eqn:Ep. rewrite ?Ep in Hh1, Hback1. simpl in Hh1, Hback1. subst h1.
    destruct (IH Hdes (h ++ e1)) as (e2 & Hh2 & Hback2).
    destruct (parse_elems es (h ++ e1)) as [vs h2] eqn:Epe.
    rewrite ?Epe in Hh2, Hback2.
    simpl in Hh2, Hback2. subst h2.
    exists (e1 ++ e2). simpl. rewrite <- app_assoc. split; [reflexivity|].
    intros i pre post n Hlen Hn.
    change (depth_elems (x :: es))
      with (Nat.max (depth x) (depth_elems es)) in Hn.
    rewrite <- (app_assoc e1 e2 post).
    rewrite (Hback1 pre (e2 ++ post) n Hlen ltac:(lia)).
    rewrite (app_assoc pre e1 (e2 ++ post)).
    rewrite (Hback2 (S i) (pre ++ e1) post n); [| |lia].
    + now rewrite (defined_not_undef _ Hdx).
    + rewrite !length_app. lia.
Qed.

(** A printed tree, parsed: new objects only, which print as that tree. *)
Lemma parse_atom_back j :
  parse j = (fun h => ((parse j []).1, h)) ->
  (forall n h, stringify n h (parse j []).1 = Some j) ->
  parses_back j.
Proof.
  intros Hp Hs h. exists []. rewrite Hp. simpl. rewrite app_nil_r.
  split; [reflexivity|]. intros pre post n _ _. apply Hs.
Qed.

(** A printed tree, parsed: new objects only, which print as that tree. *)
Lemma parse_back j : defined j = true -> parses_back j.
Proof.
  revert j.
  apply (jsval_nested_ind (fun j => defined j = true -> parses_back j)).
  - discriminate.
  - intros _. apply parse_atom_back; [reflexivity|intros n h; now apply stringify_atom].
  - intros b _. apply parse_atom_back; [reflexivity|intros n h; now apply stringify_atom].
  - intros z _. apply parse_atom_back; [reflexivity|intros n h; now apply stringify_atom].
  - intros s _. apply parse_atom_back; [reflexivity|intros n h; now apply stringify_atom].
  - intros es IH Hdef h. simpl in Hdef.
    destruct (parse_elems_back es IH Hdef h) as (ext & Hh' & Hback).
    rewrite parse_JArr.
    destruct (parse_elems es h) as [vs h'] eqn:Epe.
    rewrite ?Epe in Hh', Hback. simpl in Hh', Hback.
    subst h'. exists (ext ++ [mkObject true (index_props 0 vs)]).
    cbn [fst snd]. rewrite <- app_assoc. split; [reflexivity|].
    intros pre post n Hlen Hn. rewrite depth_JArr in Hn.
    destruct n as [|n]; [lia|]. rewrite stringify_VRef.
    rewrite <- (app_assoc ext _ post). rewrite (app_assoc pre ext). simpl.
    rewrite list_lookup_middle by (rewrite !length_app; lia).
    simpl. rewrite <- (app_assoc pre ext).
    change (mkObject true (index_props 0 vs) :: post)
      with ([mkObject true (index_props 0 vs)] ++ post).
    now rewrite (Hback 0%nat pre _ n Hlen ltac:(lia)).
  - intros ms IH Hdef h. simpl in Hdef.
    destruct (parse_members_back ms IH Hdef h) as (ext & Hh' & _ & Hback).
    rewrite parse_JObj.
    destruct (parse_members ms h) as [ps h'] eqn:Epm.
    rewrite ?Epm in Hh', Hback. simpl in Hh', Hback.
    subst h'. exists (ext ++ [mkObject false ps]).
    cbn [fst snd]. rewrite <- app_assoc. split; [reflexivity|].
    intros pre post n Hlen Hn. rewrite depth_JObj in Hn.
    destruct n as [|n]; [lia|]. rewrite stringify_VRef.
    rewrite <- (app_assoc ext _ post). rewrite (app_assoc pre ext). simpl.
    rewrite list_lookup_middle by (rewrite !length_app; lia).
    simpl. rewrite <- (app_assoc pre ext).
    change (mkObject false ps :: post) with ([mkObject false ps] ++ post).
    now rewrite (Hback pre _ n Hlen ltac:(lia)).
Qed.

(** ** Property lists *)

Lemma get_not_in k (ps : list (string * val)) :
  ~ In k (keys ps) -> get k ps = VUndef.
Proof.
  induction ps as [|[k' v] ps IH]; simpl; [easy|].
  intros Hnot. destruct (String.eqb_spec k k') as [->|Hne].
  - exfalso. apply Hnot. now left.
  - apply IH. intros Hin. apply Hnot. now right.
Qed.

Lemma get_middle k v (a b : list (string * val)) :
  ~ In k (keys a) -> get k (a ++ (k, v) :: b) = v.
Proof.
  induction a as [|[k' v'] a IH]; simpl; intros Hnot.
  - now rewrite String.eqb_refl.
  - destruct (String.eqb_spec k k') as [->|Hne].
    + exfalso. apply Hnot. now left.
    + apply IH. intros Hin. apply Hnot. now right.
Qed.

(** A property that is set is found at one place, its key not before. *)
Lemma get_split k (ps : list (string * val)) :
  get k ps <> VUndef ->
  exists a b, ps = a ++ (k, get k ps) :: b /\ ~ In k (keys a).
Proof.
  induction ps as [|[k' v] ps IH]; simpl; [easy|].
  destruct (String.eqb_spec k k') as [->|Hne]; intros Hv.
  - exists [], ps. split; [reflexivity|intros []].
  - destruct (IH Hv) as (a & b & Hps & Hnot).
    exists ((k', v) :: a), b. split; [simpl; now rewrite <- Hps|].
    simpl. intros [Heq|Hin]; [congruence|easy].
Qed.

Lemma get_in_nodup k v (ps : list (string * val)) :
  NoDup (keys ps) -> In (k, v) ps -> get k ps = v.
Proof.
  induction ps as [|[k' v'] ps IH]; simpl; [easy|].
  intros Hnd [Heq|Hin].
  - injection Heq as -> ->. now rewrite String.eqb_refl.
  - inversion Hnd as [|? ? Hnot Hnd']; subst.
    destruct (String.eqb_spec k k') as [->|Hne]; [|now apply IH].
    exfalso. apply Hnot. apply list_elem_of_In.
    change (In k' (map fst ps)). apply in_map_iff. now exists (k', v).
Qed.

Lemma printed_in k (ps : list (string * val)) :
  In k (keys (printed ps)) ->
  exists v, In (k, v) ps /\ is_VUndef v = false.
Proof.
  unfold keys, printed. intros Hin. apply in_map_iff in Hin as ([k' v] & <- & Hin).
  apply list_elem_of_In, list_elem_of_filter in Hin as [Hv Hin].
  exists v. split; [now apply list_elem_of_In|exact Hv].
Qed.

Lemma printed_nodup (ps : list (string * val)) :
  NoDup (keys ps) -> NoDup (keys (printed ps)).
Proof.
  induction ps as [|[k v] ps IH]; [easy|].
  intros Hnd. inversion Hnd as [|? ? Hnot Hnd']; subst.
  unfold printed, keys in *.
  destruct (is_VUndef v) eqn:Ev.
  - rewrite filter_cons_False by (simpl; congruence). now apply IH.
  - rewrite filter_cons_True by exact Ev. simpl. constructor; [|now apply IH].
    intros Hin. apply Hnot. apply list_elem_of_In in Hin. apply list_elem_of_In.
    destruct (printed_in k ps Hin) as (v' & Hin' & _).
    change (In k (map fst ps)). apply in_map_iff. now exists (k, v').
Qed.

Lemma mask_props_keys (a b : list (string * val)) :
  keys a = keys b -> mask_props a = mask_props b.
Proof.
  revert b. induction a as [|[k v] a IH]; intros [|[k' v'] b]; simpl; try easy.
  intros [= -> Hkeys]. unfold mask_props in *. simpl. now rewrite (IH b).
Qed.

Lemma mask_keys (ps : list (string * val)) (d : dict) :
  keys ps = map fst d ->
  map (fun kv => (kv.1, JStr "*****")) ps = mask d.
Proof.
  revert d. induction ps as [|[k v] ps IH]; intros [|[k' x] d]; simpl; try easy.
  intros [= -> Hkeys]. unfold mask in *. simpl. now rewrite (IH d).
Qed.

(** ** The loop over the keys *)

Lemma fold_set_other k x t ks (ps : list (string * val)) :
  ~ In k ks ->
  fold_left (fun ps key => set key t ps) ks ((k, x) :: ps)
  = (k, x) :: fold_left (fun ps key => set key t ps) ks ps.
Proof.
  revert ps. induction ks as [|k' ks IH]; intros ps Hnot; [reflexivity|].
  simpl. destruct (String.eqb_spec k' k) as [->|Hne].
  - exfalso. apply Hnot. now left.
  - apply IH. intros Hin. apply Hnot. now right.
Qed.

(** Assigning to every key of an object, none of them twice, masks every
    value and keeps the keys. *)
Lemma fold_set_keys t (ps : list (string * val)) :
  NoDup (keys ps) ->
  fold_left (fun ps key => set key t ps) (keys ps) ps
  = map (fun kv => (kv.1, t)) ps.
Proof.
  induction ps as [|[k v] ps IH]; [reflexivity|].
  intros Hnd. inversion Hnd as [|? ? Hnot Hnd']; subst.
  simpl. rewrite String.eqb_refl.
  rewrite fold_set_other by (intros Hin; apply Hnot; now apply list_elem_of_In).
  f_equal. now apply IH.
Qed.

Lemma fold_assign d t ks (h : heap) o :
  h !! d = Some o ->
  fold_left (fun h key => assign d key t h) ks h
  = <[d := mkObject (is_array o)
            (fold_left (fun ps key => set key t ps) ks (props o))]> h.
Proof.
  revert h o. induction ks as [|k ks IH]; intros h o Hd.
  - simpl. symmetry. apply list_insert_id. now destruct o.
  - simpl. unfold assign at 2. rewrite Hd.
    erewrite IH; [|apply list_lookup_insert_eq; now apply lookup_lt_Some in Hd].
    now rewrite list_insert_insert_eq.
Qed.

(** ** Lists of members *)

Lemma members_app (f : val -> option jsval) a b :
  members f (a ++ b)
  = match members f a, members f b with
    | Some x, Some y => Some (x ++ y)
    | _, _ => None
    end.
Proof.
  induction a as [|[k v] a IH]; simpl.
  - now destruct (members f b).
  - rewrite IH. destruct (f v) as [j|]; [|reflexivity].
    destruct (members f a) as [x|]; [|reflexivity].
    destruct (members f b) as [y|]; [|reflexivity].
    now destruct (is_undef j).
Qed.

Lemma members_masked (f : val -> option jsval) (ps : list (string * val)) :
  (forall s, f (VStr s) = Some (JStr s)) ->
  members f (mask_props ps)
  = Some (map (fun kv => (kv.1, JStr "*****")) ps).
Proof.
  intros Hf. induction ps as [|[k v] ps IH]; [reflexivity|].
  unfold mask_props in *. simpl. now rewrite Hf, IH.
Qed.

Lemma parse_members_app a b h :
  parse_members (a ++ b) h
  = let '(ka, ha) := parse_members a h in
    let '(kb, hb) := parse_members b ha in
    (ka ++ kb, hb).
Proof.
  revert h. induction a as [|[k x] a IH]; intros h.
  - simpl. now destruct (parse_members b h).
  - rewrite <- app_comm_cons, !parse_members_cons.
    destruct (parse x h) as [v h1]. rewrite IH.
    destruct (parse_members a h1) as [ka ha].
    now destruct (parse_members b ha) as [kb hb].
Qed.

Lemma depth_members_app a b :
  depth_members (a ++ b) = Nat.max (depth_members a) (depth_members b).
Proof.
  induction a as [|[k x] a IH]; [reflexivity|].
  change (depth_members (((k, x) :: a) ++ b))
    with (Nat.max (depth x) (depth_members (a ++ b))).
  change (depth_members ((k, x) :: a))
    with (Nat.max (depth x) (depth_members a)).
  rewrite IH. lia.
Qed.

Lemma mask_data_cons k x ms :
  mask_data ((k, x) :: ms)
  = if String.eqb "Data" k
    then (k, match x with JObj d => JObj (mask d) | _ => x end) :: ms
    else (k, x) :: mask_data ms.
Proof. reflexivity. Qed.

Lemma mask_data_absent ms :
  ~ In "Data" (map fst ms) -> mask_data ms = ms.
Proof.
  induction ms as [|[k x] ms IH]; [reflexivity|].
  intros Hnot. rewrite mask_data_cons.
  destruct (String.eqb_spec "Data" k) as [<-|Hne].
  - exfalso. apply Hnot. now left.
  - f_equal. apply IH. intros Hin. apply Hnot. now right.
Qed.

Lemma mask_data_middle a d b :
  ~ In "Data" (map fst a) ->
  mask_data (a ++ ("Data", JObj d) :: b)
  = a ++ ("Data", JObj (mask d)) :: b.
Proof.
  induction a as [|[k x] a IH]; intros Hnot.
  { change (mask_data ([] ++ ("Data", JObj d) :: b))
      with (mask_data (("Data", JObj d) :: b)).
    rewrite mask_data_cons. now rewrite String.eqb_refl. }
  rewrite <- app_comm_cons, mask_data_cons.
  destruct (String.eqb_spec "Data" k) as [<-|Hne].
  - exfalso. apply Hnot. now left.
  - rewrite <- app_comm_cons. f_equal. apply IH.
    intros Hin. apply Hnot. now right.
Qed.

Lemma members_cons (f : val -> option jsval) k v ps :
  members f ((k, v) :: ps)
  = match f v, members f ps with
    | Some j, Some r => Some (if is_undef j then r else (k, j) :: r)
    | _, _ => None
    end.
Proof. reflexivity. Qed.

Lemma all_parse_back (ms : dict) :
  Forall (fun kv => defined kv.2 = true -> parses_back kv.2) ms.
Proof. apply Forall_forall. intros kv _. apply parse_back. Qed.

Lemma printed_keys_subset k (ps : list (string * val)) :
  In k (keys (printed ps)) -> In k (keys ps).
Proof.
  intros Hin. destruct (printed_in k ps Hin) as (v & Hin' & _).
  unfold keys. apply in_map_iff. now exists (k, v).
Qed.

(** The run of [redactDataFromPayload] on a payload without [Data]. *)
Lemma redact_without_data n (h : heap) l po ms :
  h !! l = Some po -> is_array po = false ->
  NoDup (keys (props po)) ->
  get "Data" (props po) = VUndef ->
  members (stringify n h) (props po) = Some ms ->
  exists ext kvs,
    redactDataFromPayload (S n) (VRef l) h
    = Ok (VRef (length (h ++ ext)), h ++ ext ++ [mkObject false kvs])
    /\ get "Data" kvs = VUndef
    /\ stringify (S n) (h ++ ext ++ [mkObject false kvs])
         (VRef (length (h ++ ext)))
       = Some (redact_json (JObj ms)).
Proof.
  intros Hl Harr Hnd Hget Hms.
  assert (Hdef : forallb (fun '(_, x) => defined x) ms = true).
  { eapply members_defined; [|exact Hms]. intros v j. apply stringify_defined. }
  assert (Hdepth : (depth_members ms <= n)%nat).
  { eapply members_depth; [|exact Hms]. intros v j. apply stringify_depth. }
  assert (Hno : ~ In "Data" (map fst ms)).
  { rewrite (members_keys _ _ _ _ Hms). intros Hin.
    destruct (printed_in _ _ Hin) as (v & Hin' & Hv).
    rewrite (get_in_nodup _ _ _ Hnd Hin') in Hget. now subst v. }
  destruct (parse_members_back ms (all_parse_back ms) Hdef h)
    as (ext & Hhc & Hkeys & Hback).
  destruct (parse_members ms h) as [kvs hc] eqn:Epm.
  cbn [fst snd] in Hhc, Hkeys, Hback. subst hc.
  assert (Hdata : get "Data" kvs = VUndef).
  { apply get_not_in. now rewrite Hkeys. }
  exists ext, kvs.
  assert (Hlook : (h ++ ext ++ [mkObject false kvs]) !! length (h ++ ext)
                  = Some (mkObject false kvs)).
  { rewrite app_assoc. now apply list_lookup_middle. }
  split; [|split; [exact Hdata|]].
  - unfold redactDataFromPayload.
    rewrite stringify_VRef, Hl, Harr, Hms. cbn [fmap option_fmap option_map].
    rewrite parse_JObj, Epm. rewrite <- app_assoc, Hlook.
    cbn [fmap option_fmap option_map default compose props].
    now rewrite Hdata.
  - rewrite stringify_VRef, Hlook. cbn [is_array props].
    rewrite (Hback h [mkObject false kvs] n eq_refl Hdepth).
    cbn [fmap option_fmap option_map redact_json].
    now rewrite mask_data_absent.
Qed.

(** The run of [redactDataFromPayload] on a payload whose [Data] is a map:
    where the new objects are, and what they hold. *)
Lemma redact_with_data n (h : heap) l po d dobj ms :
  h !! l = Some po -> is_array po = false ->
  get "Data" (props po) = VRef d ->
  h !! d = Some dobj -> is_array dobj = false ->
  NoDup (keys (props dobj)) ->
  members (stringify n h) (props po) = Some ms ->
  exists e1 e2 kvs,
    let top := mkObject false kvs in
    let masked := mkObject false (mask_props (printed (props dobj))) in
    let h' := h ++ e1 ++ masked :: e2 ++ [top] in
    redactDataFromPayload (S n) (VRef l) h
    = Ok (VRef (length (h ++ e1 ++ masked :: e2)), h')
    /\ get "Data" kvs = VRef (length (h ++ e1))
    /\ stringify (S n) h' (VRef (length (h ++ e1 ++ masked :: e2)))
       = Some (redact_json (JObj ms)).
Proof.
  intros Hl Harr Hget Hd Hdarr Hnd Hms.
  destruct (get_split "Data" (props po)) as (ppre & ppost & Hprops & Hnotpre);
    [rewrite Hget; discriminate|].
  rewrite Hget in Hprops. rewrite Hprops in Hms.
  rewrite members_app, members_cons in Hms.
  destruct (members (stringify n h) ppre) as [mpre|] eqn:Hmpre; [|discriminate].
  destruct (stringify n h (VRef d)) as [jd|] eqn:Hjd; [|discriminate].
  destruct (members (stringify n h) ppost) as [mpost|] eqn:Hmpost; [|discriminate].
  rewrite (stringify_undef _ _ _ _ Hjd) in Hms. cbn [is_VUndef] in Hms.
  injection Hms as <-.
  destruct n as [|n]; [discriminate Hjd|].
  pose proof Hjd as Hjd'. rewrite stringify_VRef, Hd, Hdarr in Hjd'.
  destruct (members (stringify n h) (props dobj)) as [dms|] eqn:Hdms;
    [|discriminate].
  injection Hjd' as <-.
  (* what is known of the three parts *)
  assert (Hdefined : forall m ps r, members (stringify m h) ps = Some r ->
            forallb (fun '(_, x) => defined x) r = true).
  { intros m ps r Hr. eapply members_defined; [|exact Hr].
    intros v j. apply stringify_defined. }
  assert (Hdeep : forall m ps r, members (stringify m h) ps = Some r ->
            (depth_members r <= m)%nat).
  { intros m ps r Hr. eapply members_depth; [|exact Hr].
    intros v j. apply stringify_depth. }
  assert (Hnopre : ~ In "Data" (map fst mpre)).
  { rewrite (members_keys _ _ _ _ Hmpre). intros Hin.
    apply Hnotpre. now apply printed_keys_subset. }
  pose proof (members_keys _ _ _ _ Hdms) as Hdkeys.
  pose proof (printed_nodup _ Hnd) as Hdnd.
  (* the three parts parsed, one after the other *)
  destruct (parse_members_back mpre (all_parse_back _) (Hdefined _ _ _ Hmpre) h)
    as (e1 & Hh1 & Hk1 & Hb1).
  destruct (parse_members mpre h) as [kpre ha] eqn:Epre.
  cbn [fst snd] in Hh1, Hk1, Hb1. subst ha.
  destruct (parse_members_back dms (all_parse_back _) (Hdefined _ _ _ Hdms)
              (h ++ e1)) as (e2 & Hh2 & Hk2 & Hb2).
  destruct (parse_members dms (h ++ e1)) as [dkvs hd] eqn:Edms.
  cbn [fst snd] in Hh2, Hk2, Hb2. subst hd.
  set (dtop := mkObject false dkvs).
  destruct (parse_members_back mpost (all_parse_back _) (Hdefined _ _ _ Hmpost)
              (((h ++ e1) ++ e2) ++ [dtop])) as (e3 & Hh3 & Hk3 & Hb3).
  destruct (parse_members mpost (((h ++ e1) ++ e2) ++ [dtop]))
    as [kpost hc] eqn:Epost.
  cbn [fst snd] in Hh3, Hk3, Hb3. subst hc.
  exists (e1 ++ e2), e3, (kpre ++ ("Data", VRef (length (h ++ e1 ++ e2))) :: kpost).
  intros top masked h'.
  assert (Hmask : mkObject false (mask_props dkvs) = masked).
  { unfold masked. f_equal. apply mask_props_keys. now rewrite Hk2. }
  assert (Hdata : get "Data" (props top) = VRef (length (h ++ e1 ++ e2))).
  { unfold top. cbn [props]. now rewrite get_middle by now rewrite Hk1. }
  rewrite <- !app_assoc in Epost, Hb3. cbn [app] in Epost, Hb3.
  assert (Hr1 : (h ++ e1 ++ e2 ++ dtop :: e3 ++ [top])
                !! length (h ++ e1 ++ e2 ++ dtop :: e3) = Some top).
  { replace (h ++ e1 ++ e2 ++ dtop :: e3 ++ [top])
      with ((h ++ e1 ++ e2 ++ dtop :: e3) ++ [top])
      by (now rewrite <- !app_assoc).
    now apply list_lookup_middle. }
  assert (Hd1 : (h ++ e1 ++ e2 ++ dtop :: e3 ++ [top])
                !! length (h ++ e1 ++ e2) = Some dtop).
  { replace (h ++ e1 ++ e2 ++ dtop :: e3 ++ [top])
      with ((h ++ e1 ++ e2) ++ dtop :: e3 ++ [top])
      by (now rewrite <- !app_assoc).
    now apply list_lookup_middle. }
  assert (Hins : forall x,
            <[length (h ++ e1 ++ e2) := x]> (h ++ e1 ++ e2 ++ dtop :: e3 ++ [top])
            = h ++ e1 ++ e2 ++ x :: e3 ++ [top]).
  { intros x.
    replace (h ++ e1 ++ e2 ++ dtop :: e3 ++ [top])
      with ((h ++ e1 ++ e2) ++ dtop :: e3 ++ [top])
      by (now rewrite <- !app_assoc).
    rewrite insert_app_r_alt by lia. rewrite Nat.sub_diag.
    cbn [insert list_insert]. now rewrite <- !app_assoc. }
  split; [|split; [exact Hdata|]].
  - unfold redactDataFromPayload.
    rewrite stringify_VRef, Hl, Harr, Hprops, members_app, Hmpre, members_cons,
      Hjd, Hmpost.
    cbn [is_undef fmap option_fmap option_map].
    rewrite parse_JObj, parse_members_app, Epre, parse_members_cons, parse_JObj,
      Edms.
    fold dtop. rewrite <- !app_assoc. cbn [app]. rewrite Epost.
    rewrite <- !app_assoc. cbn [app]. fold top.
    rewrite Hr1. cbn [fmap option_fmap option_map default compose].
    rewrite Hdata. cbn [truthy id].
    rewrite Hd1. cbn [fmap option_fmap option_map default compose].
    rewrite (fold_assign _ _ _ _ _ Hd1).
    change (props dtop) with dkvs. change (is_array dtop) with false. unfold id.
    rewrite fold_set_keys by (rewrite Hk2, Hdkeys; exact Hdnd).
    fold (mask_props dkvs). rewrite Hmask.
    rewrite Hins. unfold h'. rewrite <- !app_assoc.
    do 3 f_equal. now rewrite !length_app.
  - unfold h'. rewrite <- !app_assoc.
    assert (Hr2 : (h ++ e1 ++ e2 ++ masked :: e3 ++ [top])
                  !! length (h ++ e1 ++ e2 ++ masked :: e3) = Some top).
    { replace (h ++ e1 ++ e2 ++ masked :: e3 ++ [top])
        with ((h ++ e1 ++ e2 ++ masked :: e3) ++ [top])
        by (now rewrite <- !app_assoc).
      now apply list_lookup_middle. }
    assert (Hd2 : (h ++ e1 ++ e2 ++ masked :: e3 ++ [top])
                  !! length (h ++ e1 ++ e2) = Some masked).
    { replace (h ++ e1 ++ e2 ++ masked :: e3 ++ [top])
        with ((h ++ e1 ++ e2) ++ masked :: e3 ++ [top])
        by (now rewrite <- !app_assoc).
      now apply list_lookup_middle. }
    rewrite stringify_VRef, Hr2.
    change (is_array top) with false.
    change (props top)
      with (kpre ++ ("Data", VRef (length (h ++ e1 ++ e2))) :: kpost).
    cbv iota.
    rewrite members_app, members_cons.
    rewrite (Hb1 h (e2 ++ masked :: e3 ++ [top]) (S n) eq_refl
               (Hdeep _ _ _ Hmpre)).
    rewrite stringify_VRef, Hd2.
    change (is_array masked) with false.
    change (props masked) with (mask_props (printed (props dobj))).
    cbv iota.
    rewrite members_masked by (intros s; now apply stringify_atom).
    rewrite (mask_keys _ dms) by (now rewrite Hdkeys).
    cbn [fmap option_fmap option_map is_undef].
    replace (h ++ e1 ++ e2 ++ masked :: e3 ++ [top])
      with ((h ++ e1 ++ e2 ++ [masked]) ++ e3 ++ [top])
      by (now rewrite <- !app_assoc).
    rewrite (Hb3 (h ++ e1 ++ e2 ++ [masked]) [top] (S n));
      [|now rewrite !length_app|exact (Hdeep _ _ _ Hmpost)].
    cbn [redact_json]. now rewrite mask_data_middle.
Qed.

Lemma mask_props_masked (ps : list (string * val)) :
  keys (mask_props ps) = keys ps
  /\ Forall (fun kv => kv.2 = VStr "*****") (mask_props ps).
Proof.
  unfold keys, mask_props. induction ps as [|[k v] ps [IHk IHv]]; simpl.
  - split; [reflexivity|constructor].
  - split; [now rewrite IHk|now constructor].
Qed.

(** C6, as stated, fails: a key of [Data] whose value is [undefined] is
    not a key of the copy's [Data]. For the payload
    [{ Status: 'SUCCESS', Data: { a: undefined } }] the input's [Data] has
    the key [a] and the result's [Data] has no key. *)
Lemma redactDataFromPayload_drops_undefined_counterexample :
  let h := undefined_value_heap in
  exists h',
    redactDataFromPayload 2 (VRef 1) h = Ok (VRef 3, h')
    /\ (get "Data" ∘ props <$> h !! 1%nat) = Some (VRef 0)
    /\ (keys ∘ props <$> h !! 0%nat) = Some ["a"]
    /\ (get "Data" ∘ props <$> h' !! 3%nat) = Some (VRef 2)
    /\ (keys ∘ props <$> h' !! 2%nat) = Some [].
Proof. eexists. repeat split. Qed.

(** The run at the fuel that printing the payload takes. *)
Lemma redact_at_fuel
    (fuel : nat) (h : heap) (l : loc) (po : object) (j : jsval) :
  Forall well_formed h ->
  h !! l = Some po ->
  is_array po = false ->
  data_absent_or_map h po ->
  stringify fuel h (VRef l) = Some j ->
  exists r h',
    redactDataFromPayload fuel (VRef l) h = Ok (VRef r, h')
    /\ (forall a o, h !! a = Some o -> h' !! a = Some o)
    /\ (length h <= r)%nat
    /\ stringify fuel h' (VRef r) = Some (redact_json j)
    /\ (forall d dobj,
          get "Data" (props po) = VRef d -> h !! d = Some dobj ->
          exists ro d' dro,
            h' !! r = Some ro
            /\ get "Data" (props ro) = VRef d'
            /\ (length h <= d')%nat
            /\ h' !! d' = Some dro
            /\ is_array dro = false
            /\ keys (props dro) = keys (printed (props dobj))
            /\ Forall (fun kv => kv.2 = VStr "*****") (props dro)).
Proof.
  intros Hwf Hl Harr Hdata Hs.
  destruct fuel as [|n]; [discriminate Hs|].
  rewrite stringify_VRef, Hl, Harr in Hs.
  destruct (members (stringify n h) (props po)) as [ms|] eqn:Hms;
    [|discriminate Hs].
  injection Hs as <-.
  destruct Hdata as [Hget|(d & dobj & Hget & Hd & Hdarr)].
  - assert (Hnd : NoDup (keys (props po))).
    { exact (proj1 (Forall_lookup _ _) Hwf _ _ Hl). }
    destruct (redact_without_data n h l po ms Hl Harr Hnd Hget Hms)
      as (ext & kvs & Hrun & _ & Hprint).
    exists (length (h ++ ext)), (h ++ ext ++ [mkObject false kvs]).
    split; [exact Hrun|].
    split; [intros a o Ha; now apply lookup_app_l_Some|].
    split; [rewrite length_app; lia|].
    split; [exact Hprint|].
    intros d dobj Hget'. congruence.
  - assert (Hnd : NoDup (keys (props dobj))).
    { exact (proj1 (Forall_lookup _ _) Hwf _ _ Hd). }
    destruct (redact_with_data n h l po d dobj ms Hl Harr Hget Hd Hdarr Hnd Hms)
      as (e1 & e2 & kvs & Hrun & Hdata & Hprint).
    cbv zeta in Hrun, Hprint.
    set (masked := mkObject false (mask_props (printed (props dobj)))) in *.
    set (top := mkObject false kvs) in *.
    exists (length (h ++ e1 ++ masked :: e2)), (h ++ e1 ++ masked :: e2 ++ [top]).
    split; [exact Hrun|].
    split; [intros a o Ha; now apply lookup_app_l_Some|].
    split; [rewrite length_app; lia|].
    split; [exact Hprint|].
    intros d0 dobj0 Hget0 Hd0.
    assert (d0 = d) as -> by congruence.
    assert (dobj0 = dobj) as -> by congruence.
    destruct (mask_props_masked (printed (props dobj))) as [Hkeys Hvals].
    exists top, (length (h ++ e1)), masked.
    split.
    { replace (h ++ e1 ++ masked :: e2 ++ [top])
        with ((h ++ e1 ++ masked :: e2) ++ [top])
        by (now rewrite <- !app_assoc).
      now apply list_lookup_middle. }
    split; [exact Hdata|].
    split; [rewrite length_app; lia|].
    split.
    { rewrite app_assoc. now apply list_lookup_middle. }
    split; [reflexivity|].
    split; [exact Hkeys|exact Hvals].
Qed.


(** Fuel beyond what printing the payload takes changes nothing. *)
Lemma redact_more_fuel fuel0 fuel (h : heap) v j :
  stringify fuel0 h v = Some j -> (fuel0 <= fuel)%nat ->
  redactDataFromPayload fuel v h = redactDataFromPayload fuel0 v h.
Proof.
  intros Hs Hle. unfold redactDataFromPayload.
  now rewrite (stringify_more_fuel _ _ _ _ _ Hs Hle), Hs.
Qed.

(** C6, amended. For every payload object that [JSON.stringify] can print
    (as the tree [j], with fuel [fuel0]) and whose [Data] is absent or a
    map, [redactDataFromPayload] returns, for all fuel from [fuel0] on, one
    and the same new object [r]: every object that was in the heap is
    afterwards what it was (the argument is not mutated); [r] prints as [j]
    with every value of the [Data] map replaced by the mask; and the
    result's [Data] is a new map whose keys are the keys of the input's
    [Data] that hold a value other than [undefined], each with the mask as
    its value. *)
Theorem redactDataFromPayload_masks_copy
    (fuel0 : nat) (h : heap) (l : loc) (po : object) (j : jsval) :
  Forall well_formed h ->
  h !! l = Some po ->
  is_array po = false ->
  data_absent_or_map h po ->
  stringify fuel0 h (VRef l) = Some j ->
  exists r h',
    (forall fuel, (fuel0 <= fuel)%nat ->
       redactDataFromPayload fuel (VRef l) h = Ok (VRef r, h')
       /\ stringify fuel h' (VRef r) = Some (redact_json j))
    /\ (forall a o, h !! a = Some o -> h' !! a = Some o)
    /\ (length h <= r)%nat
    /\ (forall d dobj,
          get "Data" (props po) = VRef d -> h !! d = Some dobj ->
          exists ro d' dro,
            h' !! r = Some ro
            /\ get "Data" (props ro) = VRef d'
            /\ (length h <= d')%nat
            /\ h' !! d' = Some dro
            /\ is_array dro = false
            /\ keys (props dro) = keys (printed (props dobj))
            /\ Forall (fun kv => kv.2 = VStr "*****") (props dro)).
Proof.
  intros Hwf Hl Harr Hdata Hs.
  destruct (redact_at_fuel fuel0 h l po j Hwf Hl Harr Hdata Hs)
    as (r & h' & Hrun & Hkept & Hnew & Hprint & Hmap).
  exists r, h'. split; [|split; [exact Hkept|split; [exact Hnew|exact Hmap]]].
  intros fuel Hle. split.
  - now rewrite (redact_more_fuel _ _ _ _ _ Hs Hle).
  - now apply (stringify_more_fuel fuel0).
Qed.

Lemma redactDataFromPayload_masks_copy_witness :
  exists r h',
    redactDataFromPayload 3 (VRef 3) sample_heap = Ok (VRef r, h')
    /\ stringify 3 h' (VRef r)
       = Some (JObj [("Status", JStr "SUCCESS"); ("NoEcho", JBool true);
                     ("Data", JObj [("user", JStr "*****");
                                    ("secret", JStr "*****");
                                    ("tags", JStr "*****")])]).
Proof.
  assert (Hwf : Forall well_formed sample_heap).
  { unfold sample_heap, well_formed.
    repeat (apply Forall_cons; split); try (now apply Forall_nil);
      cbn [keys props map fst];
      apply (bool_decide_unpack (NoDup _)); vm_compute; exact I. }
  assert (Hdata : data_absent_or_map sample_heap
            (mkObject false
               [("Status", VStr "SUCCESS"); ("NoEcho", VBool true);
                ("Data", VRef 2)])).
  { right. eexists 2%nat, _. repeat split. }
  destruct (redactDataFromPayload_masks_copy 3 sample_heap 3 _ _
              Hwf eq_refl eq_refl Hdata eq_refl)
    as (r & h' & Hrun & _).
  exists r, h'. exact (Hrun 3%nat (le_n 3)).
Defined.
End StoreFacts.

(** * Further properties of the two entry points *)

Lemma delete_of_failed_create_false ev :
  Event.RequestType ev <> "Delete"
  \/ Event.PhysicalResourceId ev <> Some CREATE_FAILED_PHYSICAL_ID_MARKER ->
  delete_of_failed_create ev = false.
Proof.
  unfold delete_of_failed_create. intros [Htype|Hid].
  - apply String.eqb_neq in Htype. now rewrite Htype.
  - rewrite bool_decide_eq_false_2 by exact Hid. apply andb_false_r.
Qed.

(** An answered request among the allowed ones makes the delivery return. *)
Lemma outcome_of_answered more net k :
  (k <= more)%nat -> net k = None ->
  outcome_of net (attempts_made more net) = Returned tt.
Proof.
  intros Hk Hnone. unfold outcome_of.
  pose proof (attempts_made_bounds more net) as Hb.
  destruct (Nat.eq_dec (attempts_made more net) (S more)) as [Heq|Hne].
  - assert (k = more) as ->.
    { destruct (Nat.eq_dec k more) as [|Hkm]; [assumption|].
      exfalso. apply (attempts_made_earlier_failed more net k); [lia|exact Hnone]. }
    rewrite Heq. cbn [Nat.sub]. rewrite Nat.sub_0_r. now rewrite Hnone.
  - now rewrite attempts_made_stops_on_answer by lia.
Qed.

Lemma outcome_of_none_answered more net :
  (forall i, (i <= more)%nat -> net i <> None) ->
  exists e, net more = Some e /\ outcome_of net (attempts_made more net) = Thrown e.
Proof.
  intros Hall. rewrite (attempts_made_none_answered more net Hall).
  unfold outcome_of. cbn [Nat.sub]. rewrite Nat.sub_0_r.
  specialize (Hall more (le_n _)).
  destruct (net more) as [e|]; [|congruence]. now exists e.
Qed.

Lemma delivery_requests_shape ms req body n x :
  In x (delivery ms req body n) -> is_request x = true ->
  x = EHttpRequest req body.
Proof.
  induction n as [|n IH]; [intros []|].
  destruct n as [|n].
  - intros [<-|[]] _. reflexivity.
  - change (delivery ms req body (S (S n)))
      with (EHttpRequest req body :: ESleep ms :: delivery ms req body (S n)).
    intros [<-|[<-|Hin]] Hreq; [reflexivity|discriminate Hreq|now apply IH].
Qed.

Lemma submit_log_not_request ev json : is_request (submit_log ev json) = false.
Proof. unfold submit_log. now destruct (default false (Response.NoEcho json)). Qed.

Lemma log_on_failure_no_request ev :
  filter (fun x => is_request x = true) (log_on_failure ev) = [].
Proof.
  unfold log_on_failure.
  destruct (falsy_string _); [|reflexivity].
  now destruct (String.eqb _ _).
Qed.

(** The failure path, spelled out: what is added to the trace the handler
    left, and how the call ends. *)
Lemma safeHandler_failed_run block w w1 e :
  delete_of_failed_create (event w) = false ->
  block w = (Thrown e, w1) ->
  is_Retry e = false ->
  let ev' := event_on_failure (event w1) in
  let json := response_json FAILED ev' (failure_options (includeStackTraces w1) e) in
  let n := attempts_made 4 (network w1) in
  safeHandler block w
  = (outcome_of (network w1) n,
     mkWorld ev' (includeStackTraces w1)
       (trace w1 ++ log_on_failure (event w1)
          ++ submit_log ev' json
          :: delivery 1000 (request_of ev' json) (json_text (Response.to_js json)) n)
       (fun i => network w1 (n + i)%nat)).
Proof.
  intros Hdel Hblock Hretry ev' json n.
  rewrite (safeHandler_failed block w w1 e Hdel Hblock Hretry).
  rewrite submitResponse_run. cbn [event includeStackTraces trace network].
  now rewrite <- app_assoc.
Qed.

(** The short-circuit path, spelled out. *)
Lemma safeHandler_ignored_run block w :
  delete_of_failed_create (event w) = true ->
  let json := response_json SUCCESS (event w) no_options in
  let n := attempts_made 4 (network w) in
  safeHandler block w
  = (outcome_of (network w) n,
     mkWorld (event w) (includeStackTraces w)
       (trace w
        ++ [ELog "ignoring DELETE event caused by a failed CREATE event" [];
            submit_log (event w) json]
        ++ delivery 1000 (request_of (event w) json)
             (json_text (Response.to_js json)) n)
       (fun i => network w (n + i)%nat)).
Proof.
  intros Hdel json n. rewrite safeHandler_ignores_delete by exact Hdel.
  unfold bind, log, emit. rewrite submitResponse_run.
  cbn [network trace event includeStackTraces].
  now rewrite <- app_assoc.
Qed.

(** X1. Unless the event is a Delete carrying the create-failed sentinel,
    an inner handler that returns normally is all there is to the call: the
    wrapped handler returns, and the world is exactly the one the inner
    handler left. The wrapper logs nothing and submits no response on the
    success path. *)
Theorem safeHandler_success_adds_nothing (block : M unit) (w w1 : World) :
  Event.RequestType (event w) <> "Delete"
  \/ Event.PhysicalResourceId (event w) <> Some CREATE_FAILED_PHYSICAL_ID_MARKER ->
  block w = (Returned tt, w1) ->
  safeHandler block w = (Returned tt, w1).
Proof.
  intros Hev Hblock. apply safeHandler_returned; [|exact Hblock].
  now apply delete_of_failed_create_false.
Qed.

Lemma safeHandler_success_adds_nothing_witness :
  safeHandler (ret tt)
    (sample_world (sample_event "Update" (Some CREATE_FAILED_PHYSICAL_ID_MARKER))
       (fails_first 0))
  = (Returned tt,
     sample_world (sample_event "Update" (Some CREATE_FAILED_PHYSICAL_ID_MARKER))
       (fails_first 0)).
Proof.
  refine (safeHandler_success_adds_nothing (ret tt) _ _ _ eq_refl).
  left. discriminate.
Defined.


(** X3. When the inner handler fails with an error that is not the Retry
    signal and one of the (at most five) delivery attempts of the FAILED
    response is answered, the wrapped handler returns normally: the inner
    handler's error is reported, not re-thrown. *)
Theorem safeHandler_reported_failure_returns
    (block : M unit) (w w1 : World) (e : JsError) (k : nat) :
  delete_of_failed_create (event w) = false ->
  block w = (Thrown e, w1) ->
  is_Retry e = false ->
  (k < 5)%nat ->
  network w1 k = None ->
  (safeHandler block w).1 = Returned tt.
Proof.
  intros Hdel Hblock Hretry Hk Hnone.
  rewrite (safeHandler_failed_run block w w1 e Hdel Hblock Hretry).
  cbn [fst]. apply (outcome_of_answered 4 (network w1) k); [lia|exact Hnone].
Qed.

Lemma safeHandler_reported_failure_returns_witness :
  (safeHandler (throw boom)
     (sample_world (sample_event "Update" (Some "id-1")) (fails_first 3))).1
  = Returned tt.
Proof.
  refine (safeHandler_reported_failure_returns (throw boom)
            (sample_world (sample_event "Update" (Some "id-1")) (fails_first 3))
            (sample_world (sample_event "Update" (Some "id-1")) (fails_first 3))
            boom 3 eq_refl eq_refl eq_refl _ eq_refl).
  lia.
Defined.

(** X4. When the inner handler fails with an error that is not the Retry
    signal and none of the five delivery attempts of the FAILED response is
    answered, the wrapped handler throws, and what it throws is the error of
    the fifth attempt, not the inner handler's error. *)
Theorem safeHandler_undelivered_failure_throws
    (block : M unit) (w w1 : World) (e : JsError) :
  delete_of_failed_create (event w) = false ->
  block w = (Thrown e, w1) ->
  is_Retry e = false ->
  (forall i, (i < 5)%nat -> network w1 i <> None) ->
  exists e5,
    network w1 4%nat = Some e5
    /\ (safeHandler block w).1 = Thrown e5
    /\ length (filter (fun x => is_request x = true)
                 (drop (length (trace w1)) (trace (safeHandler block w).2)))
       = 5%nat.
Proof.
  intros Hdel Hblock Hretry Hall.
  rewrite (safeHandler_failed_run block w w1 e Hdel Hblock Hretry).
  cbn [fst snd trace].
  destruct (outcome_of_none_answered 4 (network w1)) as (e5 & He5 & Hout).
  { intros i Hi. apply Hall. lia. }
  exists e5. split; [exact He5|]. split; [exact Hout|].
  rewrite drop_app_length.
  rewrite filter_app, log_on_failure_no_request. cbn [app].
  rewrite filter_cons_False by (rewrite submit_log_not_request; congruence).
  rewrite filter_delivery_requests.
  apply attempts_made_none_answered. intros i Hi. apply Hall. lia.
Qed.

Lemma safeHandler_undelivered_failure_throws_witness :
  exists e5,
    fails_first 5 4%nat = Some e5
    /\ (safeHandler (throw boom)
          (sample_world (sample_event "Create" None) (fails_first 5))).1
       = Thrown e5.
Proof.
  destruct (safeHandler_undelivered_failure_throws (throw boom)
              (sample_world (sample_event "Create" None) (fails_first 5))
              (sample_world (sample_event "Create" None) (fails_first 5))
              boom eq_refl eq_refl eq_refl) as (e5 & He5 & Hout & _).
  - intros i Hi. destruct i as [|[|[|[|[|i]]]]]; [discriminate..|lia].
  - exists e5. split; [exact He5|exact Hout].
Defined.



(** X6. A failed create followed by its delete. When a Create event without
    PhysicalResourceId fails (the inner handler throws an error that is not
    the Retry signal), the FAILED response carries an id with which a later
    Delete event is acknowledged by the wrapped handler with SUCCESS, whatever
    the inner handler is: the delete of a resource that was never created
    does not reach the inner handler. *)
Theorem failed_create_then_delete_is_acknowledged
    (block : M unit) (w w1 : World) (e : JsError)
    (block2 : M unit) (w2 : World) :
  delete_of_failed_create (event w) = false ->
  block w = (Thrown e, w1) ->
  is_Retry e = false ->
  Event.RequestType (event w1) = "Create" ->
  falsy_string (Event.PhysicalResourceId (event w1)) = true ->
  let reported :=
    response_json FAILED (event (safeHandler block w).2)
      (failure_options (includeStackTraces w1) e) in
  Event.RequestType (event w2) = "Delete" ->
  Event.PhysicalResourceId (event w2)
    = Some (Response.PhysicalResourceId reported) ->
  let json := response_json SUCCESS (event w2) no_options in
  In (submit_log (event (safeHandler block w).2) reported)
     (trace (safeHandler block w).2)
  /\ (forall block2', safeHandler block2' w2 = safeHandler block2 w2)
  /\ Response.Status json = SUCCESS
  /\ trace (safeHandler block2 w2).2
     = trace w2
       ++ [ELog "ignoring DELETE event caused by a failed CREATE event" [];
           submit_log (event w2) json]
       ++ delivery 1000 (request_of (event w2) json)
            (json_text (Response.to_js json)) (attempts_made 4 (network w2)).
Proof.
  intros Hdel Hblock Hretry Htype Hid reported Htype2 Hid2 json.
  assert (Hev : event (safeHandler block w).2
                = Event.set_PhysicalResourceId CREATE_FAILED_PHYSICAL_ID_MARKER
                    (event w1)).
  { rewrite (safeHandler_failed_run block w w1 e Hdel Hblock Hretry).
    cbn [snd event]. unfold event_on_failure. rewrite Hid, Htype. reflexivity. }
  assert (Hdel2 : delete_of_failed_create (event w2) = true).
  { unfold delete_of_failed_create. rewrite Htype2, Hid2.
    unfold reported. rewrite Hev. reflexivity. }
  split.
  { unfold reported.
    rewrite (safeHandler_failed_run block w w1 e Hdel Hblock Hretry).
    cbn [snd trace event].
    apply in_or_app. right. apply in_or_app. right. now left. }
  split; [intros block2'; now rewrite !safeHandler_ignored_run by exact Hdel2|].
  split; [reflexivity|].
  now rewrite safeHandler_ignored_run by exact Hdel2.
Qed.

Lemma failed_create_then_delete_is_acknowledged_witness :
  let ev2 := sample_event "Delete" (Some CREATE_FAILED_PHYSICAL_ID_MARKER) in
  trace (safeHandler (throw boom) (sample_world ev2 (fails_first 0))).2
  = [ELog "ignoring DELETE event caused by a failed CREATE event" [];
     submit_log ev2 (response_json SUCCESS ev2 no_options);
     EHttpRequest (request_of ev2 (response_json SUCCESS ev2 no_options))
       (json_text (Response.to_js (response_json SUCCESS ev2 no_options)))].
Proof.
  exact (proj2 (proj2 (proj2
    (failed_create_then_delete_is_acknowledged (throw boom)
       (sample_world (sample_event "Create" None) (fails_first 0))
       (sample_world (sample_event "Create" None) (fails_first 0))
       boom (throw boom)
       (sample_world
          (sample_event "Delete" (Some CREATE_FAILED_PHYSICAL_ID_MARKER))
          (fails_first 0))
       eq_refl eq_refl eq_refl eq_refl eq_refl eq_refl eq_refl)))).
Defined.

(** X7. An inner handler that reports its own success and whose delivery is
    never answered: [submitResponse] throws the error of its fifth attempt
    inside the inner handler, the wrapper catches it like any other failure
    and submits a FAILED response of its own. Five requests carry the SUCCESS
    payload, then between one and five carry the FAILED payload, whose Reason
    is taken from the transport error. *)
Theorem safeHandler_reports_failed_delivery_of_handler
    (w : World) (options : CloudFormationResponseOptions) :
  delete_of_failed_create (event w) = false ->
  (forall i, (i < 5)%nat -> network w i <> None) ->
  (forall e5, network w 4%nat = Some e5 -> is_Retry e5 = false) ->
  let block := submitResponse SUCCESS (event w) options in
  let sent := response_json SUCCESS (event w) options in
  let ev' := event_on_failure (event w) in
  let n := attempts_made 4 (fun i => network w (5 + i)%nat) in
  exists e5,
    network w 4%nat = Some e5
    /\ let json :=
         response_json FAILED ev' (failure_options (includeStackTraces w) e5) in
       trace (safeHandler block w).2
       = trace w
         ++ submit_log (event w) sent
         :: delivery 1000 (request_of (event w) sent)
              (json_text (Response.to_js sent)) 5
         ++ log_on_failure (event w)
         ++ submit_log ev' json
         :: delivery 1000 (request_of ev' json)
              (json_text (Response.to_js json)) n
       /\ (1 <= n <= 5)%nat
       /\ (safeHandler block w).1
          = outcome_of (fun i => network w (5 + i)%nat) n.
Proof.
  intros Hdel Hall Hnot block sent ev' n.
  destruct (outcome_of_none_answered 4 (network w)) as (e5 & He5 & Hout).
  { intros i Hi. apply Hall. lia. }
  assert (Hn5 : attempts_made 4 (network w) = 5%nat).
  { apply attempts_made_none_answered. intros i Hi. apply Hall. lia. }
  exists e5. split; [exact He5|].
  assert (Hblock : block w
    = (Thrown e5,
       mkWorld (event w) (includeStackTraces w)
         (trace w ++ submit_log (event w) sent
            :: delivery 1000 (request_of (event w) sent)
                 (json_text (Response.to_js sent)) 5)
         (fun i => network w (5 + i)%nat))).
  { unfold block. rewrite submitResponse_run. rewrite Hout, Hn5. reflexivity. }
  rewrite (safeHandler_failed_run block w _ e5 Hdel Hblock (Hnot e5 He5)).
  cbn [fst snd trace event includeStackTraces network].
  fold ev'. fold n.
  split; [|split; [apply attempts_made_bounds|reflexivity]].
  rewrite <- app_assoc. reflexivity.
Qed.

Lemma safeHandler_reports_failed_delivery_of_handler_witness :
  (safeHandler
     (submitResponse SUCCESS (sample_event "Update" (Some "id-1")) no_options)
     (sample_world (sample_event "Update" (Some "id-1")) (fails_first 6))).1
  = Returned tt.
Proof.
  destruct (safeHandler_reports_failed_delivery_of_handler
              (sample_world (sample_event "Update" (Some "id-1")) (fails_first 6))
              no_options eq_refl) as (e5 & _ & _ & _ & Hout).
  - intros i Hi. destruct i as [|[|[|[|[|i]]]]]; [discriminate..|lia].
  - intros e5 [= <-]. reflexivity.
  - exact Hout.
Defined.

(** X8. Every request [submitResponse] makes, on every attempt, is the same
    one: a PUT to the host and path of the parsed callback URL, with an empty
    content-type, carrying the JSON text of the payload as body and the byte
    length of that text as content-length. *)
Theorem submitResponse_requests_are_puts
    (status : CompletionStatus) (ev : Event.t)
    (options : CloudFormationResponseOptions) (w : World) :
  let body := json_text (Response.to_js (response_json status ev options)) in
  exists added,
    trace (submitResponse status ev options w).2 = trace w ++ added
    /\ forall x, In x added -> is_request x = true ->
       exists req,
         x = EHttpRequest req body
         /\ method req = "PUT"
         /\ content_type req = ""
         /\ content_length req = byteLength body
         /\ hostname req = Url.hostname (Url.parse (Event.ResponseURL ev))
         /\ path req = Url.path (Url.parse (Event.ResponseURL ev)).
Proof.
  intros body. rewrite submitResponse_run. cbn [snd trace].
  eexists. split; [reflexivity|].
  intros x [<-|Hin] Hreq.
  - now rewrite submit_log_not_request in Hreq.
  - exists (request_of ev (response_json status ev options)).
    split; [now apply (delivery_requests_shape _ _ _ _ _ Hin)|].
    repeat split.
Qed.

Lemma submitResponse_requests_are_puts_witness :
  exists req,
    EHttpRequest
      (request_of (sample_event "Create" None)
         (response_json SUCCESS (sample_event "Create" None) no_options))
      (json_text (Response.to_js
         (response_json SUCCESS (sample_event "Create" None) no_options)))
    = EHttpRequest req
        (json_text (Response.to_js
           (response_json SUCCESS (sample_event "Create" None) no_options)))
    /\ method req = "PUT"
    /\ content_type req = "".
Proof.
  destruct (submitResponse_requests_are_puts SUCCESS (sample_event "Create" None)
              no_options
              (sample_world (sample_event "Create" None) (fails_first 0)))
    as (added & Htrace & Hall).
  vm_compute in Htrace. subst added.
  destruct (Hall (EHttpRequest
              (request_of (sample_event "Create" None)
                 (response_json SUCCESS (sample_event "Create" None) no_options))
              (json_text (Response.to_js
                 (response_json SUCCESS (sample_event "Create" None) no_options)))))
    as (req & Heq & Hm & Hct & _).
  - right. left. reflexivity.
  - reflexivity.
  - exists req. repeat split; assumption.
Defined.

(** X9. The only thing the wrapped handler ever changes on the event is a
    missing PhysicalResourceId. Compared with the event at entry (for the
    delete of a failed create) or as the inner handler left it (otherwise),
    the event after the call has the same RequestType, StackId, RequestId,
    LogicalResourceId, ResponseURL and Data, and its PhysicalResourceId is
    either unchanged or was absent or empty and is now the create-failed
    sentinel: an id that is known is never overwritten. *)
Theorem safeHandler_changes_only_a_missing_id (block : M unit) (w : World) :
  let before :=
    if delete_of_failed_create (event w) then event w else event (block w).2 in
  let after := event (safeHandler block w).2 in
  Event.RequestType after = Event.RequestType before
  /\ Event.StackId after = Event.StackId before
  /\ Event.RequestId after = Event.RequestId before
  /\ Event.LogicalResourceId after = Event.LogicalResourceId before
  /\ Event.ResponseURL after = Event.ResponseURL before
  /\ Event.Data after = Event.Data before
  /\ (Event.PhysicalResourceId after = Event.PhysicalResourceId before
      \/ (falsy_string (Event.PhysicalResourceId before) = true
          /\ Event.PhysicalResourceId after
             = Some CREATE_FAILED_PHYSICAL_ID_MARKER)).
Proof.
  intros before after. subst before after.
  destruct (delete_of_failed_create (event w)) eqn:Hdel.
  - rewrite safeHandler_ignored_run by exact Hdel. cbn [snd event].
    repeat split. now left.
  - destruct (block w) as [[[]|e] w1] eqn:Hblock; cbn [snd].
    + rewrite (safeHandler_returned block w w1 Hdel Hblock).
      repeat split. now left.
    + destruct (is_Retry e) eqn:Hretry.
      * rewrite (safeHandler_retry block w w1 e Hdel Hblock Hretry).
        repeat split. now left.
      * rewrite (safeHandler_failed_run block w w1 e Hdel Hblock Hretry).
        cbn [snd event]. unfold event_on_failure.
        destruct (falsy_string (Event.PhysicalResourceId (event w1))) eqn:Hid;
          cbn [andb]; [|repeat split; now left].
        destruct (String.eqb (Event.RequestType (event w1)) "Create");
          repeat split; [now right|now left].
Qed.

(** * The callback URL *)

Section CallbackUrl.
Import Url.






End CallbackUrl.





(** * The store: what is not a map under Data *)

Module StoreEdge.
Import Store StoreFacts.

Lemma parse_atom v h :
  (forall l, v <> VRef l) -> parse (atom v) h = (v, h).
Proof. intros Hv. destruct v; try reflexivity. now destruct (Hv l). Qed.

Lemma atom_defined v :
  (forall l, v <> VRef l) -> v <> VUndef -> is_undef (atom v) = false.
Proof. intros Hv Hu. destruct v; try reflexivity; [easy|now destruct (Hv l)]. Qed.

(** A property holding a primitive value is found again, with that value,
    in the object parsed from what was printed. *)
Lemma parsed_get_primitive n (h : heap) k v ps :
  (forall l, v <> VRef l) -> v <> VUndef ->
  get k ps = v ->
  forall ms h0,
    members (stringify n h) ps = Some ms ->
    get k (parse_members ms h0).1 = v.
Proof.
  intros Hv Hu. induction ps as [|[k' v0] ps IH]; intros Hget ms h0 Hms.
  - cbn in Hget. congruence.
  - rewrite members_cons in Hms.
    destruct (stringify n h v0) as [j0|] eqn:Hj0; [|discriminate Hms].
    destruct (members (stringify n h) ps) as [r|] eqn:Hr; [|discriminate Hms].
    injection Hms as <-. cbn [get] in Hget.
    destruct (String.eqb k k') eqn:Hk.
    + subst v0. rewrite stringify_atom in Hj0 by exact Hv.
      injection Hj0 as <-. rewrite (atom_defined v Hv Hu).
      rewrite parse_members_cons, (parse_atom v h0 Hv).
      destruct (parse_members r h0) as [kvs h1]. cbn [fst get].
      now rewrite Hk.
    + rewrite (stringify_undef _ _ _ _ Hj0).
      destruct (is_VUndef v0); [now apply IH|].
      rewrite parse_members_cons.
      destruct (parse j0 h0) as [v' h1].
      specialize (IH Hget r h1 eq_refl).
      destruct (parse_members r h1) as [kvs h2]. cbn [fst get] in *.
      now rewrite Hk.
Qed.

(** The copy of a printable payload object: where it is, and that it
    prints as the payload. *)
Lemma parsed_copy n (h : heap) ms :
  forallb (fun '(_, x) => defined x) ms = true ->
  (depth_members ms <= n)%nat ->
  exists ext,
    (parse_members ms h).2 = h ++ ext
    /\ parse (JObj ms) h
       = (VRef (length (h ++ ext)),
          h ++ ext ++ [mkObject false (parse_members ms h).1])
    /\ (h ++ ext ++ [mkObject false (parse_members ms h).1])
         !! length (h ++ ext)
       = Some (mkObject false (parse_members ms h).1)
    /\ stringify (S n) (h ++ ext ++ [mkObject false (parse_members ms h).1])
         (VRef (length (h ++ ext)))
       = Some (JObj ms).
Proof.
  intros Hdef Hdepth.
  destruct (parse_members_back ms (all_parse_back ms) Hdef h)
    as (ext & Hhc & _ & Hback).
  exists ext. rewrite parse_JObj.
  destruct (parse_members ms h) as [kvs hc] eqn:Epm.
  cbn [fst snd] in *. subst hc.
  assert (Hlook : (h ++ ext ++ [mkObject false kvs]) !! length (h ++ ext)
                  = Some (mkObject false kvs)).
  { rewrite app_assoc. now apply list_lookup_middle. }
  split; [reflexivity|]. split; [now rewrite <- app_assoc|].
  split; [exact Hlook|].
  rewrite stringify_VRef, Hlook. cbn [is_array props].
  now rewrite (Hback h [mkObject false kvs] n eq_refl Hdepth).
Qed.

(** The run on a payload whose [Data] is a primitive value. *)
Lemma redact_primitive_data n (h : heap) l po v ms :
  h !! l = Some po -> is_array po = false ->
  get "Data" (props po) = v ->
  (forall d, v <> VRef d) -> v <> VUndef ->
  members (stringify n h) (props po) = Some ms ->
  exists ext kvs,
    let r := VRef (length (h ++ ext)) in
    let h' := h ++ ext ++ [mkObject false kvs] in
    redactDataFromPayload (S n) (VRef l) h
    = (if truthy v
       then match v with
            | VStr _ => Throws "TypeError"
            | _ => Ok (r, h')
            end
       else Ok (r, h'))
    /\ stringify (S n) h' r = Some (JObj ms).
Proof.
  intros Hl Harr Hget Hv Hu Hms.
  assert (Hdef : forallb (fun '(_, x) => defined x) ms = true).
  { eapply members_defined; [|exact Hms]. intros x j. apply stringify_defined. }
  assert (Hdepth : (depth_members ms <= n)%nat).
  { eapply members_depth; [|exact Hms]. intros x j. apply stringify_depth. }
  destruct (parsed_copy n h ms Hdef Hdepth) as (ext & _ & Hparse & Hlook & Hprint).
  pose proof (parsed_get_primitive n h "Data" v (props po) Hv Hu Hget ms h Hms)
    as Hdata.
  exists ext, (parse_members ms h).1. cbv zeta.
  split; [|exact Hprint].
  unfold redactDataFromPayload.
  rewrite stringify_VRef, Hl, Harr, Hms. cbn [fmap option_fmap option_map].
  rewrite Hparse, Hlook.
  cbn [fmap option_fmap option_map default compose props]. unfold id.
  rewrite Hdata. destruct v; try reflexivity. now destruct (Hv l0).
Qed.

(** X12. A payload whose [Data] is not an object but [null], a boolean, a
    number or the empty string (nothing to mask): [redactDataFromPayload]
    returns a new object that prints exactly as the payload prints, and
    leaves every object that was in the heap as it was. *)
Theorem redactDataFromPayload_copies_primitive_data
    (fuel : nat) (h : heap) (l : loc) (po : object) (j : jsval) :
  h !! l = Some po ->
  is_array po = false ->
  (forall d, get "Data" (props po) <> VRef d) ->
  get "Data" (props po) <> VUndef ->
  (forall s, get "Data" (props po) = VStr s -> s = "") ->
  stringify fuel h (VRef l) = Some j ->
  exists r h',
    redactDataFromPayload fuel (VRef l) h = Ok (VRef r, h')
    /\ (forall a o, h !! a = Some o -> h' !! a = Some o)
    /\ (length h <= r)%nat
    /\ stringify fuel h' (VRef r) = Some j.
Proof.
  intros Hl Harr Hv Hu Hstr Hs.
  destruct fuel as [|n]; [discriminate Hs|].
  rewrite stringify_VRef, Hl, Harr in Hs.
  destruct (members (stringify n h) (props po)) as [ms|] eqn:Hms;
    [|discriminate Hs].
  injection Hs as <-.
  destruct (redact_primitive_data n h l po _ ms Hl Harr eq_refl Hv Hu Hms)
    as (ext & kvs & Hrun & Hprint).
  cbv zeta in Hrun, Hprint.
  exists (length (h ++ ext)), (h ++ ext ++ [mkObject false kvs]).
  split.
  - rewrite Hrun. destruct (get "Data" (props po)) eqn:Hget;
      try reflexivity; try (now destruct (truthy _)).
    now rewrite (Hstr s eq_refl).
  - split; [intros a o Ha; now apply lookup_app_l_Some|].
    split; [rewrite length_app; lia|exact Hprint].
Qed.

Lemma redactDataFromPayload_copies_primitive_data_witness :
  exists r h',
    redactDataFromPayload 1 (VRef 0)
      [mkObject false [("Status", VStr "FAILED"); ("Data", VNull)]]
    = Ok (VRef r, h')
    /\ stringify 1 h' (VRef r)
       = Some (JObj [("Status", JStr "FAILED"); ("Data", JNull)]).
Proof.
  destruct (redactDataFromPayload_copies_primitive_data 1
              [mkObject false [("Status", VStr "FAILED"); ("Data", VNull)]]
              0 _ (JObj [("Status", JStr "FAILED"); ("Data", JNull)])
              eq_refl eq_refl)
    as (r & h' & Hrun & _ & _ & Hprint);
    [discriminate|discriminate|discriminate|reflexivity|].
  exists r, h'. split; [exact Hrun|exact Hprint].
Defined.

(** X13. A payload whose [Data] is a non-empty string: the loop assigns to
    the characters of a string value, which throws in strict mode, so
    [redactDataFromPayload] throws a TypeError instead of returning. *)
Theorem redactDataFromPayload_string_data_throws
    (fuel : nat) (h : heap) (l : loc) (po : object) (j : jsval) (s : string) :
  h !! l = Some po ->
  is_array po = false ->
  get "Data" (props po) = VStr s ->
  s <> "" ->
  stringify fuel h (VRef l) = Some j ->
  redactDataFromPayload fuel (VRef l) h = Throws "TypeError".
Proof.
  intros Hl Harr Hget Hne Hs.
  destruct fuel as [|n]; [discriminate Hs|].
  rewrite stringify_VRef, Hl, Harr in Hs.
  destruct (members (stringify n h) (props po)) as [ms|] eqn:Hms;
    [|discriminate Hs].
  destruct (redact_primitive_data n h l po (VStr s) ms Hl Harr Hget)
    as (ext & kvs & Hrun & _); [discriminate|discriminate|exact Hms|].
  cbv zeta in Hrun. rewrite Hrun. cbn [truthy].
  apply String.eqb_neq in Hne. now rewrite Hne.
Qed.

Lemma redactDataFromPayload_string_data_throws_witness :
  redactDataFromPayload 1 (VRef 0)
    [mkObject false [("Status", VStr "SUCCESS"); ("Data", VStr "secret")]]
  = Throws "TypeError".
Proof.
  refine (redactDataFromPayload_string_data_throws 1
            [mkObject false [("Status", VStr "SUCCESS"); ("Data", VStr "secret")]]
            0 _ (JObj [("Status", JStr "SUCCESS"); ("Data", JStr "secret")])
            "secret" eq_refl eq_refl eq_refl _ eq_refl).
  discriminate.
Defined.

Lemma mask_idem d : mask (mask d) = mask d.
Proof. unfold mask. rewrite map_map. reflexivity. Qed.

Lemma mask_data_idem ms : mask_data (mask_data ms) = mask_data ms.
Proof.
  induction ms as [|[k x] ms IH]; [reflexivity|].
  rewrite mask_data_cons. destruct (String.eqb "Data" k) eqn:Hk.
  - rewrite mask_data_cons, Hk. destruct x; try reflexivity.
    now rewrite mask_idem.
  - now rewrite mask_data_cons, Hk, IH.
Qed.

(** X14. Redacting twice is redacting once. For a printable payload whose
    [Data] is a map, [redactDataFromPayload] applied to its own result
    returns again, and the second result prints exactly as the first one:
    as the payload with every value of [Data] masked. The second call
    leaves the first result, like everything else in the heap, as it
    was. *)
Theorem redactDataFromPayload_twice
    (fuel : nat) (h : heap) (l : loc) (po : object)
    (d : loc) (dobj : object) (j : jsval) :
  h !! l = Some po ->
  is_array po = false ->
  get "Data" (props po) = VRef d ->
  h !! d = Some dobj ->
  is_array dobj = false ->
  NoDup (keys (props dobj)) ->
  stringify fuel h (VRef l) = Some j ->
  exists r1 h1 r2 h2,
    redactDataFromPayload fuel (VRef l) h = Ok (VRef r1, h1)
    /\ redactDataFromPayload fuel (VRef r1) h1 = Ok (VRef r2, h2)
    /\ stringify fuel h1 (VRef r1) = Some (redact_json j)
    /\ stringify fuel h2 (VRef r2) = Some (redact_json j)
    /\ (forall a o, h1 !! a = Some o -> h2 !! a = Some o).
Proof.
  intros Hl Harr Hget Hd Hdarr Hnd Hs.
  destruct fuel as [|n]; [discriminate Hs|].
  rewrite stringify_VRef, Hl, Harr in Hs.
  destruct (members (stringify n h) (props po)) as [ms|] eqn:Hms;
    [|discriminate Hs].
  injection Hs as <-.
  destruct (redact_with_data n h l po d dobj ms Hl Harr Hget Hd Hdarr Hnd Hms)
    as (e1 & e2 & kvs & Hrun & Hdata & Hprint).
  cbv zeta in Hrun, Hprint.
  set (masked := mkObject false (mask_props (printed (props dobj)))) in *.
  set (top := mkObject false kvs) in *.
  set (h1 := h ++ e1 ++ masked :: e2 ++ [top]) in *.
  set (r1 := length (h ++ e1 ++ masked :: e2)) in *.
  assert (Hr1 : h1 !! r1 = Some top).
  { unfold h1, r1.
    replace (h ++ e1 ++ masked :: e2 ++ [top])
      with ((h ++ e1 ++ masked :: e2) ++ [top])
      by (now rewrite <- !app_assoc).
    now apply list_lookup_middle. }
  assert (Hd1 : h1 !! length (h ++ e1) = Some masked).
  { unfold h1. rewrite app_assoc. now apply list_lookup_middle. }
  assert (Hnd1 : NoDup (keys (props masked))).
  { unfold masked. cbn [props].
    rewrite (proj1 (mask_props_masked _)). now apply printed_nodup. }
  assert (Hms1 : members (stringify n h1) (props top) = Some (mask_data ms)).
  { pose proof Hprint as Hp. rewrite stringify_VRef, Hr1 in Hp.
    change (is_array top) with false in Hp. cbv iota in Hp.
    destruct (members (stringify n h1) (props top)) as [ms1|];
      [|discriminate Hp].
    cbn [fmap option_fmap option_map redact_json] in Hp. congruence. }
  destruct (redact_with_data n h1 r1 top (length (h ++ e1)) masked
              (mask_data ms) Hr1 eq_refl Hdata Hd1 eq_refl Hnd1 Hms1)
    as (f1 & f2 & kvs2 & Hrun2 & _ & Hprint2).
  cbv zeta in Hrun2, Hprint2.
  eexists r1, h1, _, _.
  split; [exact Hrun|]. split; [exact Hrun2|]. split; [exact Hprint|].
  split.
  - rewrite Hprint2. cbn [redact_json]. now rewrite mask_data_idem.
  - intros a o Ha. now apply lookup_app_l_Some.
Qed.

Lemma redactDataFromPayload_twice_witness :
  exists r1 h1 r2 h2,
    redactDataFromPayload 3 (VRef 3) sample_heap = Ok (VRef r1, h1)
    /\ redactDataFromPayload 3 (VRef r1) h1 = Ok (VRef r2, h2)
    /\ stringify 3 h2 (VRef r2) = stringify 3 h1 (VRef r1).
Proof.
  destruct (redactDataFromPayload_twice 3 sample_heap 3 _ 2 _
              (JObj [("Status", JStr "SUCCESS"); ("NoEcho", JBool true);
                     ("Data", JObj [("user", JStr "admin");
                                    ("secret", JObj [("token", JNum 42)]);
                                    ("tags", JArr [JStr "x"; JNull])])])
              eq_refl eq_refl eq_refl eq_refl eq_refl)
    as (r1 & h1 & r2 & h2 & Hrun1 & Hrun2 & Hp1 & Hp2 & _).
  - cbn [keys props map fst].
    apply (bool_decide_unpack (NoDup _)); vm_compute; exact I.
  - reflexivity.
  - exists r1, h1, r2, h2. split; [exact Hrun1|]. split; [exact Hrun2|].
    now rewrite Hp1, Hp2.
Defined.
End StoreEdge.
